(** * gen_hexdump: a shallow embedding of [gen_hexdump.cpp]

    The program turns a textual hex string into the fixed-column hexdump
    that Wireshark's "Import from Hex Dump" dialog reads.  This file embeds
    the line classifier [preprocess_hex_str], the formatter [gen_hexdump],
    the two file readers [read_hex_str] and [read_hex_gen_dump], the helper
    [trim] and the body of [main], and proves properties of them.

    Modelling conventions.
    - A [std::string] is a [list ascii]; literals are written [lit "..."].
    - [uint32_t] and [uint8_t] variables are integers in [Z]; every
      assignment that can wrap is written with [u32] or [u8].
    - [operator[]] of a [std::string] is defined for positions up to and
      including [size()] (where it yields the NUL character) and undefined
      beyond; [str_at] returns [None] for an undefined read, and the
      classifier lives in the [option] monad so that such a read is visible.
    - The index [int i] of the classifier overflows beyond [INT_MAX],
      which is undefined: [int_add] returns [None] there.  The index
      [uint32_t i] of the formatter's loop wraps at 2^32 and is compared
      with the 64-bit length of the string: [for_loop] follows it, and a
      loop that never exits has no result, [None]; [iterations] gives the
      state in the middle of the loop.  [int_index] and [u32_index] say of
      a string that it keeps the two indices in their ranges.
    - The character classes are those of the "C" locale, which is the one
      the program runs in since it never calls [setlocale].
    - The output file stream is the list of the lines written to it, each
      one followed by [endl]; [file_contents] gives the bytes of the file.
    - [getopt] belongs to the C library: [main] is modelled from the
      sequence of the results that [getopt] returns, each one an option
      character with its [optarg], and from the diagnostic that [getopt]
      writes to standard error when it meets an option it does not know. *)

From Stdlib Require Import ZArith Ascii String List Bool Lia Arith ZifyNat.
Import ListNotations.
Local Open Scope Z_scope.

(** ** Strings and characters *)

Definition str := list ascii.

Definition lit (s : string) : str := list_ascii_of_string s.

Definition code (c : ascii) : Z := Z.of_N (N_of_ascii c).

Definition in_range (lo hi : Z) (c : ascii) : bool :=
  (lo <=? code c) && (code c <=? hi).

(** [isxdigit]: 0-9, A-F, a-f. *)
Definition isxdigit (c : ascii) : bool :=
  in_range 48 57 c || in_range 65 70 c || in_range 97 102 c.

(** [isblank]: space and horizontal tab. *)
Definition isblank (c : ascii) : bool :=
  (code c =? 32) || (code c =? 9).

(** [tolower]: A-Z are moved to a-z, everything else is unchanged. *)
Definition tolower (c : ascii) : ascii :=
  if in_range 65 90 c then ascii_of_N (Z.to_N (code c + 32)) else c.

Definition CR : ascii := ascii_of_nat 13.
Definition NUL : ascii := ascii_of_nat 0.
Definition LF : ascii := ascii_of_nat 10.
Definition SP : ascii := ascii_of_nat 32.

(** [s[i]] of a [std::string]. *)
Definition str_at (s : str) (i : nat) : option ascii :=
  match nth_error s i with
  | Some c => Some c
  | None => if (i =? length s)%nat then Some NUL else None
  end.

(** ** Machine integers *)

Definition u32 (z : Z) : Z := z mod 2 ^ 32.
Definition u8 (z : Z) : Z := z mod 2 ^ 8.

(** ** [printf]'s [%06x] *)

Definition hex_digit (n : Z) : ascii :=
  nth (Z.to_nat n) (lit "0123456789abcdef") NUL.

(** The hexadecimal digits of [n], most significant first, none for 0. *)
Fixpoint hex_digits (fuel : nat) (n : Z) (acc : str) : str :=
  match fuel with
  | O => acc
  | S fuel' =>
      if n =? 0 then acc
      else hex_digits fuel' (n / 16) (hex_digit (n mod 16) :: acc)
  end.

(** [%06x] of a 32-bit value: its digits, padded with zeros on the left
    to six characters, and longer when the value needs more. *)
Definition fmt06x (n : Z) : str :=
  let d := hex_digits 8 n [] in
  repeat (ascii_of_nat 48) (6 - length d) ++ d.

(** ** Program state *)

(** The two effects of the formatter on what outlives a call: the store
    of 0 to [gLinePrefix] in the classifier, and a line written to the
    output stream, tagged with the value [num_hex] has at that write. *)
Inductive event : Type :=
| Reset
| Flush (nbytes : Z) (row : str).

Record state : Type := mkState {
  gLinePrefix : Z;        (* the global counter *)
  ofs : list str;         (* lines written to the output stream *)
  hist : list event       (* history of resets and writes *)
}.

Definition init : state := mkState 0 [] [].

Definition reset_prefix (st : state) : state :=
  mkState 0 (ofs st) (hist st ++ [Reset]).

(** [ofs << line << endl] *)
Definition write_line (nbytes : Z) (row : str) (st : state) : state :=
  mkState (gLinePrefix st) (ofs st ++ [row]) (hist st ++ [Flush nbytes row]).

Definition set_prefix (g : Z) (st : state) : state :=
  mkState g (ofs st) (hist st).

Definition file_contents (lines : list str) : str :=
  flat_map (fun l => l ++ [LF]) lines.

(** ** The classifier [preprocess_hex_str] *)

Definition INT_MAX : Z := 2 ^ 31 - 1.

(** [i + k] on the [int i] of the classifier, which is never negative:
    beyond [INT_MAX] the sum overflows, and that is undefined. *)
Definition int_add (i k : nat) : option nat :=
  if Z.of_nat (i + k) <=? INT_MAX then Some (i + k)%nat else None.

(** The [while (line[i] == '\r') i++] loop; [fuel] bounds the number of
    iterations: with [S (length line)] the loop stops at the first
    character that is not a carriage return, or its index overflows
    before ([skip_cr_total]). *)
Fixpoint skip_cr (fuel : nat) (line : str) (i : nat) : option nat :=
  match fuel with
  | O => None
  | S fuel' =>
      match str_at line i with
      | None => None
      | Some c =>
          if Ascii.eqb c CR
          then match int_add i 1 with
               | Some i' => skip_cr fuel' line i'
               | None => None
               end
          else Some i
      end
  end.

(** [a && b] where both operands may read the string: [b] is evaluated
    only when [a] is true. *)
Definition and_then (a b : option bool) : option bool :=
  match a with
  | None => None
  | Some false => Some false
  | Some true => b
  end.

(** [p(line[i])], where the index may be undefined. *)
Definition test_at (p : ascii -> bool) (s : str) (i : option nat)
  : option bool :=
  match i with
  | Some j => option_map p (str_at s j)
  | None => None
  end.

(** The condition of line 79. *)
Definition hex_pattern_at (line : str) (i : nat) : option bool :=
  and_then (test_at isxdigit line (Some i))
 (and_then (test_at isxdigit line (int_add i 1))
 (and_then (test_at isblank line (int_add i 2))
 (and_then (test_at isxdigit line (int_add i 3))
           (test_at isxdigit line (int_add i 4))))).

Definition preprocess_hex_str (line : str) (st : state)
  : option (bool * state) :=
  match skip_cr (S (length line)) line 0 with
  | None => None
  | Some i =>
      match hex_pattern_at line i with
      | None => None
      | Some true => Some (true, st)
      | Some false => Some (false, reset_prefix st)
      end
  end.

(** ** The formatter [gen_hexdump] *)

Record locals : Type := mkLocals {
  cidx : Z;
  last_space : Z;
  num_hex : Z;
  line : str
}.

(** [line.append(1, c); cidx++] *)
Definition push (c : ascii) (l : locals) : locals :=
  mkLocals (u32 (cidx l + 1)) (last_space l) (num_hex l) (line l ++ [c]).

(** [line.append(1, ' '); last_space = cidx; cidx++] *)
Definition push_sep (l : locals) : locals :=
  mkLocals (u32 (cidx l + 1)) (cidx l) (num_hex l) (line l ++ [SP]).

(** [num_hex++] *)
Definition incr_num_hex (l : locals) : locals :=
  mkLocals (cidx l) (last_space l) (u8 (num_hex l + 1)) (line l).

(** [snprintf(buf, sizeof(buf), "%06x ", gLinePrefix); line.append(buf);
    cidx = line.length(); last_space = cidx - 1], with [num_hex] at 0.
    The text has at most nine characters, so the 16 bytes of [buf]
    hold it whole. *)
Definition fresh_row (g : Z) : locals :=
  let l := fmt06x g ++ [SP] in
  let c := u32 (Z.of_nat (length l)) in
  mkLocals c (u32 (c - 1)) 0 l.

(** Lines 110-123: a byte is complete. *)
Definition close_byte (l : locals) : locals :=
  if 2 <? u32 (cidx l - last_space l) then
    let l := incr_num_hex l in
    let l := if num_hex l =? 8 then push SP l else l in
    if negb (num_hex l =? 16) then push_sep l else l
  else l.

(** One iteration of the [for] loop on the character [ch]. *)
Definition step (ch : ascii) (st : state) (l : locals) : state * locals :=
  let c := tolower ch in
  if isxdigit c then
    let l := close_byte (push c l) in
    if num_hex l =? 16 then
      let st := write_line (num_hex l) (line l) st in
      let st := set_prefix (u32 (gLinePrefix st + num_hex l)) st in
      (st, fresh_row (gLinePrefix st))
    else (st, l)
  else (st, l).

(** The iterations of the [for] loop on the characters [s], one after
    the other. *)
Fixpoint scan (s : str) (st : state) (l : locals) : state * locals :=
  match s with
  | [] => (st, l)
  | ch :: s' => let (st', l') := step ch st l in scan s' st' l'
  end.

(** The [for] loop of line 101 from the index [i], a [uint32_t] that
    [++i] wraps at 2^32, compared with the length of the string, which
    has 64 bits.  [fuel] bounds the number of iterations: when the loop
    exits at all, [S (length hex_str)] is enough ([for_loop_scan]), and
    on a string of 2^32 characters or more it never exits, whatever the
    fuel ([for_loop_never_exits]). *)
Fixpoint for_loop (fuel : nat) (hex_str : str) (i : Z)
    (st : state) (l : locals) : option (state * locals) :=
  match fuel with
  | O => None
  | S fuel' =>
      if i <? Z.of_nat (length hex_str) then
        match str_at hex_str (Z.to_nat i) with
        | Some ch =>
            let (st', l') := step ch st l in
            for_loop fuel' hex_str (u32 (i + 1)) st' l'
        | None => None
        end
      else Some (st, l)
  end.

(** The same loop stopped after [k] iterations, or at its exit when that
    comes first: the state in the middle of a call, with what the call has
    written by then, whether the call goes on to return or not. *)
Fixpoint iterations (k : nat) (hex_str : str) (i : Z)
    (st : state) (l : locals) : option (state * locals) :=
  match k with
  | O => Some (st, l)
  | S k' =>
      if i <? Z.of_nat (length hex_str) then
        match str_at hex_str (Z.to_nat i) with
        | Some ch =>
            let (st', l') := step ch st l in
            iterations k' hex_str (u32 (i + 1)) st' l'
        | None => None
        end
      else Some (st, l)
  end.

(** Lines 137-138. *)
Definition flush_last (st : state) (l : locals) : state :=
  if negb (num_hex l =? 0) || (1 <? u32 (cidx l - last_space l))
  then write_line (num_hex l) (line l) st
  else st.

Definition gen_hexdump (hex_str : str) (st : state) : option state :=
  match preprocess_hex_str hex_str st with
  | None => None
  | Some (false, st) => Some st
  | Some (true, st) =>
      match for_loop (S (length hex_str)) hex_str 0 st
              (fresh_row (gLinePrefix st)) with
      | Some (st, l) => Some (flush_last st l)
      | None => None
      end
  end.

(** The example input of the header comment, as the whole-file reader
    returns it. *)
Definition header_example : str :=
  lit "c2ef0a00 00918843 e138a72b 08004500 003cd373 40004006 58ac0202 020a0a00"
  ++ [LF] ++
  lit "0091aae6 0016b446 7f860000 0000a002 39082c11 00000204 05b40402 080acf40"
  ++ [LF] ++
  lit "26400000 00000103 0307" ++ [LF].

(** The same with a blank after the first byte. *)
Definition header_example_spaced : str :=
  lit "c2 ef0a00 00918843 e138a72b 08004500 003cd373 40004006 58ac0202 020a0a00"
  ++ [LF] ++
  lit "0091aae6 0016b446 7f860000 0000a002 39082c11 00000204 05b40402 080acf40"
  ++ [LF] ++
  lit "26400000 00000103 0307" ++ [LF].

(** The rows that the header comment shows for it. *)
Definition sample_output : list str :=
  [lit "000000 c2 ef 0a 00 00 91 88 43  e1 38 a7 2b 08 00 45 00";
   lit "000010 00 3c d3 73 40 00 40 06  58 ac 02 02 02 0a 0a 00";
   lit "000020 00 91 aa e6 00 16 b4 46  7f 86 00 00 00 00 a0 02";
   lit "000030 39 08 2c 11 00 00 02 04  05 b4 04 02 08 0a cf 40";
   lit "000040 26 40 00 00 00 00 01 03  03 07"].

(** ** The file readers *)

(** The formatter's state together with the two standard streams of the
    process. *)
Record world : Type := mkWorld {
  fmt : state;
  cout : str;             (* standard output *)
  cerr : str              (* standard error *)
}.

Definition world0 : world := mkWorld init [] [].

(** [cout << "Unable to open file" << fname << endl] *)
Definition report_open_failure (fname : str) (w : world) : world :=
  mkWorld (fmt w) (cout w ++ lit "Unable to open file" ++ fname ++ [LF])
    (cerr w).

Section Readers.

(** The file system: [fs path] is [None] when an [ifstream] on [path]
    is not open after its construction, and else the lines that
    [getline] returns from it. *)
Variable fs : str -> option (list str).

(** [read_hex_str(fname, hex_str)]: the returned length, the string
    [hex_str] after the call, and the world. *)
Definition read_hex_str (fname hex_str : str) (w : world)
  : Z * str * world :=
  match fs fname with
  | None => (0, hex_str, report_open_failure fname w)
  | Some lines =>
      let hex_str' :=
        fold_left (fun acc l => acc ++ l ++ [LF]) lines hex_str in
      (u32 (Z.of_nat (length hex_str')), hex_str', w)
  end.

(** The [while (getline(ifs, line))] loop of [read_hex_gen_dump]. *)
Fixpoint each_line (lines : list str) (st : state) : option state :=
  match lines with
  | [] => Some st
  | l :: rest =>
      match l with
      | [] => each_line rest st
      | _ =>
          match gen_hexdump l st with
          | Some st' => each_line rest st'
          | None => None
          end
      end
  end.

(** [read_hex_gen_dump(fin, ofs)] *)
Definition read_hex_gen_dump (fin : str) (w : world)
  : option (bool * world) :=
  match fs fin with
  | None => Some (false, report_open_failure fin w)
  | Some lines =>
      match each_line lines (fmt w) with
      | Some st' => Some (true, mkWorld st' (cout w) (cerr w))
      | None => None
      end
  end.

End Readers.

(** ** What the classifier and the formatter compute *)

(** The line without its leading carriage returns. *)
Fixpoint drop_cr (s : str) : str :=
  match s with
  | c :: s' => if Ascii.eqb c CR then drop_cr s' else s
  | [] => []
  end.

(** The five-character pattern: two hex digits, a blank, two hex digits. *)
Definition hex_line (s : str) : bool :=
  match drop_cr s with
  | c0 :: c1 :: c2 :: c3 :: c4 :: _ =>
      isxdigit c0 && isxdigit c1 && isblank c2 && isxdigit c3 && isxdigit c4
  | _ => false
  end.

(** The five-character pattern as a boolean. *)
Definition pattern (rest : str) : bool :=
  match rest with
  | c0 :: c1 :: c2 :: c3 :: c4 :: _ =>
      isxdigit c0 && isxdigit c1 && isblank c2 && isxdigit c3 && isxdigit c4
  | _ => false
  end.

(** The condition of line 79 read on [rest], the line without its [i]
    leading carriage returns. *)
Definition pattern_after (i : nat) (rest : str) : option bool :=
  let test p k :=
    match int_add i k with
    | Some _ => option_map p (str_at rest k)
    | None => None
    end in
  and_then (option_map isxdigit (str_at rest 0))
 (and_then (test isxdigit 1%nat)
 (and_then (test isblank 2%nat)
 (and_then (test isxdigit 3%nat) (test isxdigit 4%nat)))).

(** The number of carriage returns at the start of the line: the value of
    [i] after the [while] loop of line 74. *)
Definition leading_cr (s : str) : nat := (length s - length (drop_cr s))%nat.

(** The last index that the classifier may read is in the range of
    [int]: [i + 4], or the position of the terminating NUL when the line
    ends before.  So it is when the line starts with fewer than 2^31 - 4
    carriage returns, and when it has fewer than 2^31 characters. *)
Definition int_index (s : str) : Prop :=
  Z.of_nat (leading_cr s + Nat.min 4 (length (drop_cr s))) <= INT_MAX.

(** The length is in the range of the 32-bit index of the loop of line
    101: the string has fewer than 2^32 characters. *)
Definition u32_index (s : str) : Prop := Z.of_nat (length s) < 2 ^ 32.

(** A string of fewer than 2^31 characters is in the range of both
    indices. *)
Definition small (s : str) : Prop := Z.of_nat (length s) < 2 ^ 31.

(** The hex digits of the input, lowercased, in their order. *)
Definition xdigits (s : str) : str := map tolower (filter isxdigit s).

(** A lowercase hex digit: what the formatter appends to a row. *)
Definition lxdigit (c : ascii) : Prop := isxdigit c = true /\ tolower c = c.

(** What follows the [j]-th byte of a row. *)
Definition sep (j : nat) : str :=
  if (j =? 16)%nat then [] else if (j =? 8)%nat then [SP; SP] else [SP].

(** The text of a row after its offset: the digits [ds] in pairs, the
    first pair being byte number [j + 1] of the row. *)
Fixpoint groups (j : nat) (ds : str) : str :=
  match ds with
  | a :: b :: rest => a :: b :: sep (S j) ++ groups (S j) rest
  | _ => ds
  end.

Definition row (g : Z) (ds : str) : str := fmt06x g ++ [SP] ++ groups 0 ds.

(** What the loop does to the state when it fills [n] rows with the
    digits [ds]: each row takes 32 digits, is written, and moves the
    counter on by 16. *)
Fixpoint emit_full (n : nat) (ds : str) (st : state) : state :=
  match n with
  | O => st
  | S n' =>
      let st := write_line 16 (row (gLinePrefix st) (firstn 32 ds)) st in
      emit_full n' (skipn 32 ds) (set_prefix (u32 (gLinePrefix st + 16)) st)
  end.

(** The short row that ends the output, when a digit is left for it. *)
Definition emit_last (ds : str) (st : state) : state :=
  match ds with
  | [] => st
  | _ => write_line (Z.of_nat (length ds / 2)) (row (gLinePrefix st) ds) st
  end.

(** The rows that [emit_full] writes. *)
Fixpoint full_rows (n : nat) (g : Z) (ds : str) : list str :=
  match n with
  | O => []
  | S n' => row g (firstn 32 ds) :: full_rows n' (u32 (g + 16)) (skipn 32 ds)
  end.

(** The counter after [n] full rows. *)
Fixpoint advance (n : nat) (g : Z) : Z :=
  match n with
  | O => g
  | S n' => advance n' (u32 (g + 16))
  end.

(** The digits in groups of two; a last digit without a partner makes a
    group of its own. *)
Fixpoint pairs (ds : str) : list str :=
  match ds with
  | a :: b :: rest => [a; b] :: pairs rest
  | [a] => [[a]]
  | [] => []
  end.

(** What stands between group number [k] of a row and the next one. *)
Definition gap (k : nat) : str := if (k =? 8)%nat then [SP; SP] else [SP].

(** Groups laid out in a row, with gaps between neighbours only; the
    first of [gs] is group number [j + 1]. *)
Fixpoint join_groups (j : nat) (gs : list str) : str :=
  match gs with
  | [] => []
  | g :: gs' =>
      match gs' with
      | [] => g
      | _ => g ++ gap (S j) ++ join_groups (S j) gs'
      end
  end.

(** What follows the last group of a row of the digits [ds]: nothing
    after the 16th byte or after a digit without a partner, else the
    separator of the last byte. *)
Definition trailer (ds : str) : str :=
  if (length ds mod 2 =? 1)%nat then [] else sep (length ds / 2).

(** The row that [emit_last] writes, if it writes one. *)
Definition short_row (g : Z) (ds : str) : list str :=
  match ds with
  | [] => []
  | _ => [row g ds]
  end.

(** The layout of a written row: the offset, one space, the groups of
    the row's digits with their gaps, and the trailer, which is empty
    after a 16th byte. *)
Definition laid_out (r : str) : Prop :=
  exists g ds,
    (1 <= length ds <= 32)%nat /\ Forall lxdigit ds /\
    Forall lxdigit (fmt06x g) /\
    r = fmt06x g ++ [SP] ++ join_groups 0 (pairs ds) ++ trailer ds /\
    (length ds = 32%nat ->
     r = fmt06x g ++ [SP] ++ join_groups 0 (pairs ds)).

(** [isspace]: space, and the five control characters from tab to
    carriage return. *)
Definition isspace (c : ascii) : bool := in_range 9 13 c || (code c =? 32).

(** A row of the output without its six-character offset and without
    whitespace. *)
Definition strip_row (r : str) : str :=
  filter (fun c => negb (isspace c)) (skipn 6 r).

(** The hex digits of the output rows, one row after the other. *)
Definition output_digits (rows : list str) : str := flat_map strip_row rows.

(** A sequence of calls of [gen_hexdump] on the same stream, as made by
    the line-by-line reader. *)
Fixpoint gen_hexdump_seq (inputs : list str) (st : state) : option state :=
  match inputs with
  | [] => Some st
  | s :: rest =>
      match gen_hexdump s st with
      | Some st' => gen_hexdump_seq rest st'
      | None => None
      end
  end.

(** The number of complete rows, rows of 16 bytes, written since the
    counter was last set to 0, after the event [e] when it was [c] before. *)
Definition count_event (c : nat) (e : event) : nat :=
  match e with
  | Reset => O
  | Flush n _ => if n =? 16 then S c else c
  end.

Definition rows_since_reset (h : list event) : nat :=
  fold_left count_event h O.

(** The rows written, read off the history. *)
Definition flushed (h : list event) : list str :=
  flat_map (fun e => match e with Reset => [] | Flush _ r => [r] end) h.

(** Every row of the history [h] is the row of some digits [ds], at most
    32 of them, with the offset of 16 times the number of complete rows
    written since the last reset before it, [c] being that number at the
    start of [h]; and the row is tagged with the number of its bytes. *)
Fixpoint offsets_from (c : nat) (h : list event) : Prop :=
  match h with
  | [] => True
  | e :: h' =>
      match e with
      | Reset => True
      | Flush n r =>
          exists ds,
            r = row (u32 (16 * Z.of_nat c)) ds /\
            n = Z.of_nat (length ds / 2) /\
            (1 <= length ds <= 32)%nat
      end /\ offsets_from (count_event c e) h'
  end.

(** The state is what its history says. *)
Record consistent (st : state) : Prop := {
  cons_prefix :
    gLinePrefix st = u32 (16 * Z.of_nat (rows_since_reset (hist st)));
  cons_offsets : offsets_from 0 (hist st);
  cons_ofs : ofs st = flushed (hist st)
}.

(** The value of a hex digit, and of a string of hex digits. *)
Definition digit_value (c : ascii) : Z :=
  if in_range 48 57 c then code c - 48
  else if in_range 97 102 c then code c - 87
  else if in_range 65 70 c then code c - 55
  else 0.

Definition hex_value (s : str) : Z :=
  fold_left (fun v c => 16 * v + digit_value c) s 0.

(** A line of 16 zero bytes. *)
Definition zero_line : str :=
  lit "00 00 00 00 00 00 00 00 00 00 00 00 00 00 00 00".

(** Between two iterations, when the digits [cur] have gone into the row
    that started at offset [g]. *)
Record row_inv (g : Z) (cur : str) (l : locals) : Prop := {
  inv_line : line l = row g cur;
  inv_cidx : cidx l = Z.of_nat (length (line l));
  inv_num_hex : num_hex l = Z.of_nat (length cur / 2);
  inv_last_space :
    last_space l = cidx l - 1 - Z.of_nat (length cur mod 2);
  inv_room : (length cur < 32)%nat
}.

(** The [i]-th run of 32 digits. *)
Definition chunk (i : nat) (ds : str) : str := firstn 32 (skipn (32 * i) ds).

(** The digits that do not fill a row. *)
Definition leftover (ds : str) : str := skipn (32 * (length ds / 32)) ds.

(** ** [trim] *)

(** [std::string::npos] and the arithmetic of [size_t], 64 bits wide. *)
Definition npos : Z := 2 ^ 64 - 1.
Definition size_t (z : Z) : Z := z mod 2 ^ 64.

(** [s.find_first_not_of(c)]: the first position whose character is not
    [c], if there is one. *)
Fixpoint find_first_not_of (c : ascii) (s : str) : option nat :=
  match s with
  | [] => None
  | x :: s' =>
      if Ascii.eqb x c then option_map S (find_first_not_of c s') else Some O
  end.

(** [s.find_last_not_of(c)]: the last such position. *)
Fixpoint find_last_not_of (c : ascii) (s : str) : option nat :=
  match s with
  | [] => None
  | x :: s' =>
      match find_last_not_of c s' with
      | Some j => Some (S j)
      | None => if Ascii.eqb x c then None else Some O
      end
  end.

(** The [size_t] that a search returns: the position, or [npos]. *)
Definition pos_of (o : option nat) : Z :=
  match o with
  | Some i => Z.of_nat i
  | None => npos
  end.

(** [s.substr(pos, len)]: [None] stands for the [std::out_of_range] that
    is thrown when [pos] is beyond [size()]. *)
Definition substr (s : str) (pos len : Z) : option str :=
  if Z.of_nat (length s) <? pos then None
  else Some (firstn (Z.to_nat len) (skipn (Z.to_nat pos) s)).

Definition trim (s : str) : option str :=
  let first := pos_of (find_first_not_of SP s) in
  let last := pos_of (find_last_not_of SP s) in
  substr s first (size_t (last - first + 1)).

(** ** [main] *)

(** How the process ends: [abort()], or a return from [main]. *)
Inductive ending : Type :=
| Abort
| Return (code : Z).

(** The variables that the option loop of [main] sets. *)
Record vars : Type := mkVars {
  hex_str : str;
  in_file : str;
  out_file : str;
  mult_pkts : bool
}.

Definition vars0 : vars := mkVars [] [] [] true.

(** The [switch] on the character [c] that [getopt] returned, with its
    [optarg]; [None] is the [default] case. *)
Definition on_option (c : ascii) (optarg : str) (v : vars) : option vars :=
  if Ascii.eqb c "s" then Some (mkVars optarg (in_file v) (out_file v) false)
  else if Ascii.eqb c "i"
       then Some (mkVars (hex_str v) optarg (out_file v) (mult_pkts v))
  else if Ascii.eqb c "o"
       then Some (mkVars (hex_str v) (in_file v) optarg (mult_pkts v))
  else if Ascii.eqb c "n"
       then Some (mkVars (hex_str v) (in_file v) (out_file v) false)
  else None.

(** The [while] loop over the results of [getopt], which are the input
    of the model: each one is the option character and its [optarg]. *)
Fixpoint parse_options (rs : list (ascii * str)) (v : vars) : option vars :=
  match rs with
  | [] => Some v
  | (c, optarg) :: rs' =>
      match on_option c optarg v with
      | Some v' => parse_options rs' v'
      | None => None
      end
  end.

Definition usage (argv0 : str) : str :=
  lit "Usage: " ++ argv0 ++ lit " [-i input_file] [-n] [-s hex_str] -o out_file"
  ++ [LF].

Definition is_empty (s : str) : bool :=
  match s with
  | [] => true
  | _ => false
  end.

Section Main.

(** The file system as the readers find it. *)
Variable fs : str -> option (list str).

(** Whether an [ofstream] on a path is open after its construction. *)
Variable creatable : str -> bool.

(** What a failed [assert] writes to standard error before it aborts. *)
Variable assert_diag : str.

(** What [getopt] has written to standard error when it returns a
    character that is not an option: [opterr] is left at 1. *)
Variable getopt_diag : str.

(** The body of [main] after the option loop.  The process starts in
    [world0]: the counter at 0, nothing written.  The [assert] is active,
    as it is with the compile command of the header comment, which does
    not define [NDEBUG].  The lines written to the output file are the
    [ofs] of the world's formatter state. *)
Definition run_main (v : vars) : option (ending * world) :=
  if is_empty (out_file v)
  then Some (Abort, mkWorld init [] assert_diag)
  else if negb (creatable (out_file v))
  then Some (Return 1,
             mkWorld init
               (lit "Error: failed to create file " ++ out_file v ++ [LF]) [])
  else if negb (mult_pkts v) && negb (is_empty (in_file v))
  then
    let '(_, hex_str', w) := read_hex_str fs (in_file v) (hex_str v) world0 in
    match gen_hexdump hex_str' (fmt w) with
    | Some st => Some (Return 0, mkWorld st (cout w) (cerr w))
    | None => None
    end
  else if negb (is_empty (in_file v))
  then
    match read_hex_gen_dump fs (in_file v) world0 with
    | Some (_, w) => Some (Return 0, w)
    | None => None
    end
  else
    match gen_hexdump (hex_str v) init with
    | Some st => Some (Return 0, mkWorld st [] [])
    | None => None
    end.

Definition main (argv0 : str) (rs : list (ascii * str))
  : option (ending * world) :=
  match parse_options rs vars0 with
  | None => Some (Abort, mkWorld init (usage argv0) getopt_diag)
  | Some v => run_main v
  end.

End Main.

(** The [optarg] of the last option [c] among the results of [getopt],
    and [d] when there is none. *)
Fixpoint last_optarg (c : ascii) (rs : list (ascii * str)) (d : str) : str :=
  match rs with
  | [] => d
  | (c', a) :: rs' => last_optarg c rs' (if Ascii.eqb c' c then a else d)
  end.

Definition known_option (c : ascii) : bool :=
  Ascii.eqb c "s" || Ascii.eqb c "i" || Ascii.eqb c "o" || Ascii.eqb c "n".

(** The text of a file whose lines are [lines], as [read_hex_str] builds
    it. *)
Definition joined (lines : list str) : str :=
  flat_map (fun l => l ++ [LF]) lines.

(** The three lines of the example input of the header comment. *)
Definition header_example_lines : list str :=
  [lit "c2ef0a00 00918843 e138a72b 08004500 003cd373 40004006 58ac0202 020a0a00";
   lit "0091aae6 0016b446 7f860000 0000a002 39082c11 00000204 05b40402 080acf40";
   lit "26400000 00000103 0307"].

(** The characters of the output: lowercase hex digits and spaces. *)
Definition row_char (c : ascii) : Prop := lxdigit c \/ c = SP.

(** The lines of a file that both modes format alike: accepted, and
    filling whole rows. *)
Definition whole_rows_line (l : str) : Prop :=
  hex_line l = true /\ (length (xdigits l) mod 32 = 0)%nat.

(** ** Characters *)

(** The 256 characters, one by one. *)
Ltac each_char c := destruct c as [[] [] [] [] [] [] [] []].

Lemma isxdigit_tolower (c : ascii) : isxdigit (tolower c) = isxdigit c.
Proof. each_char c; reflexivity. Qed.

Lemma tolower_idem (c : ascii) : tolower (tolower c) = tolower c.
Proof. each_char c; reflexivity. Qed.

Lemma xdigits_alt (s : str) : xdigits s = filter isxdigit (map tolower s).
Proof.
  unfold xdigits. induction s as [|c s IH]; simpl; [reflexivity|].
  rewrite isxdigit_tolower. destruct (isxdigit c); simpl; now rewrite IH.
Qed.

Lemma xdigits_lxdigit (s : str) : Forall lxdigit (xdigits s).
Proof.
  unfold xdigits. induction s as [|c s IH]; simpl; [constructor|].
  destruct (isxdigit c) eqn:E; simpl; [|assumption].
  constructor; [|assumption].
  split; [now rewrite isxdigit_tolower | apply tolower_idem].
Qed.

Lemma xdigits_app (a b : str) : xdigits (a ++ b) = xdigits a ++ xdigits b.
Proof. unfold xdigits. now rewrite filter_app, map_app. Qed.

Lemma xdigits_repeat (c : ascii) (n : nat) :
  isxdigit c = false -> xdigits (repeat c n) = [].
Proof.
  intros H. unfold xdigits. induction n as [|n IH]; [reflexivity|].
  cbn [repeat filter]. now rewrite H.
Qed.

Lemma xdigits_length_le (s : str) : (length (xdigits s) <= length s)%nat.
Proof. unfold xdigits. rewrite length_map. apply filter_length_le. Qed.

(** ** The classifier *)

Lemma str_at_app (pre suf : str) (k : nat) :
  str_at (pre ++ suf) (length pre + k) = str_at suf k.
Proof.
  unfold str_at. rewrite nth_error_app2 by lia.
  replace (length pre + k - length pre)%nat with k by lia.
  destruct (nth_error suf k); [reflexivity|].
  rewrite length_app.
  destruct (Nat.eqb_spec k (length suf)) as [E|E];
    destruct (Nat.eqb_spec (length pre + k) (length pre + length suf));
    try reflexivity; lia.
Qed.

Lemma drop_cr_length (s : str) : (length (drop_cr s) <= length s)%nat.
Proof.
  induction s as [|c s IH]; simpl; [lia|].
  destruct (Ascii.eqb c CR); simpl; lia.
Qed.

Lemma int_add_small (i k : nat) :
  Z.of_nat (i + k) <= INT_MAX -> int_add i k = Some (i + k)%nat.
Proof.
  intros H. unfold int_add.
  destruct (Z.leb_spec (Z.of_nat (i + k)) INT_MAX); [reflexivity | lia].
Qed.

Lemma int_add_overflow (i k : nat) :
  INT_MAX < Z.of_nat (i + k) -> int_add i k = None.
Proof.
  intros H. unfold int_add.
  destruct (Z.leb_spec (Z.of_nat (i + k)) INT_MAX); [lia | reflexivity].
Qed.

Lemma drop_cr_repeat (n : nat) (s : str) : drop_cr (repeat CR n ++ s) = drop_cr s.
Proof. induction n as [|n IH]; [reflexivity|]. cbn [repeat app drop_cr]. exact IH. Qed.

(** The [while] loop stops at the first character that is not a carriage
    return, the terminating NUL at the latest, unless the index overflows
    on the way. *)
Lemma skip_cr_app (suf pre : str) (fuel : nat) :
  (length suf < fuel)%nat ->
  Z.of_nat (length pre) <= INT_MAX ->
  skip_cr fuel (pre ++ suf) (length pre)
  = int_add (length pre) (length suf - length (drop_cr suf)).
Proof.
  revert pre fuel. induction suf as [|c suf IH]; intros pre fuel Hf Hp.
  - destruct fuel as [|fuel]; [cbn [length] in Hf; lia|]. cbn [skip_cr].
    replace (length pre) with (length pre + 0)%nat at 1 by lia.
    rewrite str_at_app. cbn [str_at nth_error length Nat.eqb drop_cr Nat.sub].
    change (Ascii.eqb NUL CR) with false. cbv iota.
    rewrite int_add_small by lia. f_equal. lia.
  - destruct fuel as [|fuel]; [cbn [length] in Hf; lia|].
    cbn [length] in Hf. cbn [skip_cr].
    replace (length pre) with (length pre + 0)%nat at 1 by lia.
    rewrite str_at_app. cbn [str_at nth_error drop_cr].
    pose proof (drop_cr_length suf) as Hle.
    destruct (Ascii.eqb c CR) eqn:E.
    + cbn [length].
      destruct (Z.leb_spec (Z.of_nat (length pre + 1)) INT_MAX) as [H1|H1].
      * rewrite int_add_small by exact H1.
        assert (Hf' : (length suf < fuel)%nat) by lia.
        specialize (IH (pre ++ [c]) fuel Hf').
        rewrite <- app_assoc, length_app in IH. cbn [length app] in IH.
        rewrite IH by lia. unfold int_add.
        replace (length pre + 1 + (length suf - length (drop_cr suf)))%nat
          with (length pre + (S (length suf) - length (drop_cr suf)))%nat
          by lia.
        reflexivity.
      * rewrite int_add_overflow by exact H1.
        rewrite int_add_overflow by lia. reflexivity.
    + cbn [length]. rewrite Nat.sub_diag. rewrite int_add_small by lia.
      f_equal. lia.
Qed.

Lemma skip_cr_total (s : str) :
  skip_cr (S (length s)) s 0 = int_add 0 (length s - length (drop_cr s)).
Proof. apply (skip_cr_app s [] (S (length s))); cbn; lia. Qed.

Lemma drop_cr_suffix (s : str) :
  exists pre, s = pre ++ drop_cr s
              /\ length pre = (length s - length (drop_cr s))%nat.
Proof.
  induction s as [|c s (pre & IH & Hl)]; [now exists []|].
  pose proof (drop_cr_length s) as Hle. cbn [drop_cr].
  destruct (Ascii.eqb c CR) eqn:E.
  - exists (c :: pre). split; [cbn [app]; now rewrite <- IH|].
    cbn [length]. lia.
  - exists []. split; [reflexivity|]. cbn [length]. lia.
Qed.

Lemma str_at_drop_cr (s : str) (k : nat) :
  str_at s (length s - length (drop_cr s) + k) = str_at (drop_cr s) k.
Proof.
  destruct (drop_cr_suffix s) as (pre & Hs & Hl).
  rewrite <- Hl. rewrite Hs at 1. now rewrite str_at_app.
Qed.

(** The condition of line 79 is read on what follows the carriage
    returns. *)
Lemma hex_pattern_at_drop_cr (s : str) :
  hex_pattern_at s (length s - length (drop_cr s))
  = pattern_after (length s - length (drop_cr s)) (drop_cr s).
Proof.
  unfold hex_pattern_at, pattern_after, test_at.
  rewrite <- (str_at_drop_cr s 0), Nat.add_0_r.
  set (i := (length s - length (drop_cr s))%nat).
  assert (H : forall (p : ascii -> bool) (k : nat),
             match int_add i k with
             | Some j => option_map p (str_at s j)
             | None => None
             end
             = match int_add i k with
               | Some _ => option_map p (str_at (drop_cr s) k)
               | None => None
               end).
  { intros p k. unfold int_add.
    destruct (Z.of_nat (i + k) <=? INT_MAX); [|reflexivity].
    subst i. now rewrite str_at_drop_cr. }
  now rewrite !H.
Qed.

Lemma preprocess_hex_str_unfold (s : str) (st : state) :
  preprocess_hex_str s st
  = match int_add 0 (length s - length (drop_cr s)) with
    | None => None
    | Some i =>
        match pattern_after i (drop_cr s) with
        | None => None
        | Some true => Some (true, st)
        | Some false => Some (false, reset_prefix st)
        end
    end.
Proof.
  unfold preprocess_hex_str. rewrite skip_cr_total. unfold int_add.
  destruct (Z.of_nat (0 + (length s - length (drop_cr s))) <=? INT_MAX);
    [|reflexivity].
  cbn [Nat.add]. now rewrite hex_pattern_at_drop_cr.
Qed.

(** Work through the tests of the pattern. *)
Ltac pattern_cases :=
  unfold pattern_after, pattern, int_add;
  cbn [str_at nth_error length Nat.eqb option_map app and_then];
  change (isxdigit NUL) with false; change (isblank NUL) with false;
  repeat (first
            [ match goal with
              | |- context [Z.of_nat ?n <=? INT_MAX] =>
                  destruct (Z.leb_spec (Z.of_nat n) INT_MAX)
              end
            | match goal with
              | |- context [and_then (Some (?p ?c)) _] => destruct (p c) eqn:?
              end
            | match goal with
              | |- context [if ?p ?c then _ else _] =>
                  match type of (p c) with bool => destruct (p c) eqn:? end
              end ];
          cbn [andb and_then option_map]);
  try reflexivity; try congruence; try lia.

(** When the tests are defined they are the pattern. *)
Lemma pattern_after_some (i : nat) (rest : str) (b : bool) :
  pattern_after i rest = Some b -> b = pattern rest.
Proof.
  intros H.
  destruct rest as [|c0 [|c1 [|c2 [|c3 [|c4 r]]]]]; revert H; pattern_cases.
Qed.

(** They are defined when the index stays in range up to the character
    at which the pattern is decided. *)
Lemma pattern_after_defined (i : nat) (rest : str) :
  Z.of_nat (i + Nat.min 4 (length rest)) <= INT_MAX ->
  pattern_after i rest = Some (pattern rest).
Proof.
  intros H.
  destruct rest as [|c0 [|c1 [|c2 [|c3 [|c4 r]]]]]; cbn [length Nat.min] in H;
    pattern_cases.
Qed.

(** The classifier on a line whose carriage returns and pattern are in
    the range of [int]: no undefined read, and the result is
    [hex_line]. *)
Lemma preprocess_hex_str_defined (s : str) (st : state) :
  Z.of_nat (length s - length (drop_cr s) + Nat.min 4 (length (drop_cr s)))
  <= INT_MAX ->
  preprocess_hex_str s st
  = Some (if hex_line s then (true, st) else (false, reset_prefix st)).
Proof.
  intros H. rewrite preprocess_hex_str_unfold, int_add_small by lia.
  cbn [Nat.add]. rewrite pattern_after_defined by exact H.
  unfold hex_line. fold (pattern (drop_cr s)).
  now destruct (pattern (drop_cr s)).
Qed.

Lemma small_int_index (s : str) : small s -> int_index s.
Proof.
  unfold small, int_index, leading_cr, INT_MAX. intros H.
  pose proof (drop_cr_length s) as Hd. lia.
Qed.

Lemma small_u32_index (s : str) : small s -> u32_index s.
Proof. unfold small, u32_index. lia. Qed.

(** The classifier when its index stays in the range of [int]. *)
Lemma preprocess_hex_str_int_index (s : str) (st : state) :
  int_index s ->
  preprocess_hex_str s st
  = Some (if hex_line s then (true, st) else (false, reset_prefix st)).
Proof. apply preprocess_hex_str_defined. Qed.

Lemma preprocess_hex_str_spec (s : str) (st : state) :
  small s ->
  preprocess_hex_str s st
  = Some (if hex_line s then (true, st) else (false, reset_prefix st)).
Proof. intros H. now apply preprocess_hex_str_int_index, small_int_index. Qed.

(** Whenever the classifier returns, it returns [hex_line]. *)
Lemma preprocess_hex_str_some (s : str) (st : state) (r : bool * state) :
  preprocess_hex_str s st = Some r ->
  r = (if hex_line s then (true, st) else (false, reset_prefix st)).
Proof.
  rewrite preprocess_hex_str_unfold.
  destruct (int_add 0 (length s - length (drop_cr s))) as [i|];
    [|discriminate].
  destruct (pattern_after i (drop_cr s)) as [b|] eqn:E; [|discriminate].
  apply pattern_after_some in E. unfold hex_line. fold (pattern (drop_cr s)).
  rewrite <- E. destruct b; now intros [= <-].
Qed.

(** With 2^31 carriage returns or more at its start the line takes the
    index out of the range of [int]. *)
Lemma preprocess_hex_str_overflow (s : str) (st : state) :
  INT_MAX < Z.of_nat (length s - length (drop_cr s)) ->
  preprocess_hex_str s st = None.
Proof.
  intros H. rewrite preprocess_hex_str_unfold, int_add_overflow; [reflexivity|].
  cbn [Nat.add]. exact H.
Qed.

Lemma preprocess_hex_str_cr_overflow (n : nat) (st : state) :
  INT_MAX < Z.of_nat n ->
  length (drop_cr (repeat CR n)) = 0%nat
  /\ preprocess_hex_str (repeat CR n) st = None.
Proof.
  intros H.
  assert (Hd : drop_cr (repeat CR n) = []).
  { rewrite <- (app_nil_r (repeat CR n)). apply drop_cr_repeat. }
  split; [now rewrite Hd|].
  apply preprocess_hex_str_overflow.
  rewrite Hd, repeat_length. cbn [length]. now rewrite Nat.sub_0_r.
Qed.

Lemma drop_cr_app (s t : str) :
  drop_cr s <> [] -> drop_cr (s ++ t) = drop_cr s ++ t.
Proof.
  induction s as [|c s IH]; intros H; [now destruct H|].
  cbn [app drop_cr] in *. destruct (Ascii.eqb c CR); [now apply IH | reflexivity].
Qed.

Lemma hex_line_app (s t : str) :
  (5 <= length (drop_cr s))%nat -> hex_line (s ++ t) = hex_line s.
Proof.
  intros H. unfold hex_line. rewrite drop_cr_app.
  - destruct (drop_cr s) as [|c0 [|c1 [|c2 [|c3 [|c4 r]]]]];
      cbn [length] in H; try lia. reflexivity.
  - intros E. rewrite E in H. cbn in H. lia.
Qed.

Lemma hex_line_length (s : str) :
  hex_line s = true -> (5 <= length (drop_cr s))%nat.
Proof.
  unfold hex_line.
  destruct (drop_cr s) as [|c0 [|c1 [|c2 [|c3 [|c4 r]]]]];
    try discriminate. intros _. cbn [length]. lia.
Qed.

(** The index after the carriage returns does not depend on what
    follows the first other character. *)
Lemma leading_cr_app (s t : str) :
  drop_cr s <> [] ->
  (length (s ++ t) - length (drop_cr (s ++ t))
   = length s - length (drop_cr s))%nat.
Proof.
  intros H. rewrite drop_cr_app by exact H. rewrite !length_app.
  pose proof (drop_cr_length s). lia.
Qed.

Lemma pattern_after_app (i : nat) (rest t : str) :
  (5 <= length rest)%nat -> pattern_after i (rest ++ t) = pattern_after i rest.
Proof.
  intros H. destruct rest as [|c0 [|c1 [|c2 [|c3 [|c4 r]]]]];
    cbn [length] in H; try lia. reflexivity.
Qed.

(** The classifier reads five characters at most. *)
Lemma preprocess_hex_str_app (s t : str) (st : state) :
  (5 <= length (drop_cr s))%nat ->
  preprocess_hex_str (s ++ t) st = preprocess_hex_str s st.
Proof.
  intros H. rewrite !preprocess_hex_str_unfold.
  assert (Hne : drop_cr s <> []).
  { intros E. rewrite E in H. cbn in H. lia. }
  rewrite leading_cr_app by exact Hne. rewrite drop_cr_app by exact Hne.
  destruct (int_add 0 (length s - length (drop_cr s))); [|reflexivity].
  now rewrite pattern_after_app.
Qed.

(** A line feed where the line ends is read as the terminating NUL is:
    neither is a hex digit or a blank. *)
Lemma pattern_after_newline (i : nat) (rest t : str) :
  pattern_after i (rest ++ LF :: t) = pattern_after i rest.
Proof.
  destruct rest as [|c0 [|c1 [|c2 [|c3 [|c4 r]]]]]; try reflexivity;
    unfold pattern_after, int_add;
    cbn [str_at nth_error length Nat.eqb option_map app and_then];
    change (isxdigit NUL) with false; change (isblank NUL) with false;
    change (isxdigit LF) with false; change (isblank LF) with false;
    repeat (match goal with
            | |- context [Z.of_nat ?n <=? INT_MAX] =>
                destruct (Z.of_nat n <=? INT_MAX)
            | |- context [and_then (Some (?p ?c)) _] => destruct (p c)
            end; cbn [and_then option_map]);
    reflexivity.
Qed.

Lemma preprocess_hex_str_newline (l t : str) (st : state) :
  preprocess_hex_str (l ++ LF :: t) st = preprocess_hex_str l st.
Proof.
  rewrite !preprocess_hex_str_unfold.
  destruct (drop_cr l) as [|c r] eqn:E.
  - assert (Hd : drop_cr (l ++ LF :: t) = LF :: t).
    { clear st. induction l as [|c l IH]; [reflexivity|].
      cbn [app drop_cr] in *. destruct (Ascii.eqb c CR); [now apply IH|].
      discriminate. }
    rewrite Hd, length_app. cbn [length].
    replace (length l + S (length t) - S (length t))%nat
      with (length l - 0)%nat by lia.
    destruct (int_add 0 (length l - 0)) as [i|]; [|reflexivity].
    exact (f_equal (fun o : option bool =>
                      match o with
                      | None => None
                      | Some true => Some (true, st)
                      | Some false => Some (false, reset_prefix st)
                      end) (pattern_after_newline i [] t)).
  - assert (Hne : drop_cr l <> []) by (rewrite E; discriminate).
    rewrite leading_cr_app by exact Hne. rewrite drop_cr_app by exact Hne.
    rewrite E.
    destruct (int_add 0 (length l - length (c :: r))) as [i|]; [|reflexivity].
    now rewrite pattern_after_newline.
Qed.

(** When the first four tests pass and [i + 4] is out of the range of
    [int], the fifth test reads [line[i + 4]] with an overflowed index. *)
Lemma pattern_after_overflow (i : nat) (c0 c1 c2 c3 : ascii) (r : str) :
  isxdigit c0 = true -> isxdigit c1 = true -> isblank c2 = true ->
  isxdigit c3 = true -> INT_MAX < Z.of_nat (i + 4) ->
  pattern_after i (c0 :: c1 :: c2 :: c3 :: r) = None.
Proof.
  intros H0 H1 H2 H3 Ho.
  unfold pattern_after, int_add.
  cbn [str_at nth_error length Nat.eqb option_map app].
  rewrite H0, H1, H2, H3.
  replace (Z.of_nat (i + 4) <=? INT_MAX) with false
    by (symmetry; apply Z.leb_gt; lia).
  cbn [and_then].
  repeat (match goal with
          | |- context [Z.of_nat ?n <=? INT_MAX] =>
              destruct (Z.of_nat n <=? INT_MAX)
          end; cbn [and_then]);
    reflexivity.
Qed.

Lemma isxdigit_not_cr (c : ascii) : isxdigit c = true -> Ascii.eqb c CR = false.
Proof.
  intros H. destruct (Ascii.eqb_spec c CR) as [->|]; [discriminate H|].
  reflexivity.
Qed.

(** Four characters that pass their tests behind so many carriage returns
    that [i + 4] leaves the range of [int]: the classifier is undefined,
    whether a fifth character follows or the line ends there. *)
Lemma preprocess_hex_str_cr_four
    (n : nat) (c0 c1 c2 c3 : ascii) (r : str) (st : state) :
  isxdigit c0 = true -> isxdigit c1 = true -> isblank c2 = true ->
  isxdigit c3 = true -> INT_MAX < Z.of_nat (n + 4) ->
  preprocess_hex_str (repeat CR n ++ c0 :: c1 :: c2 :: c3 :: r) st = None.
Proof.
  intros H0 H1 H2 H3 Ho.
  rewrite preprocess_hex_str_unfold, drop_cr_repeat.
  cbn [drop_cr]. rewrite (isxdigit_not_cr c0 H0).
  rewrite length_app, repeat_length.
  replace (n + length (c0 :: c1 :: c2 :: c3 :: r)
           - length (c0 :: c1 :: c2 :: c3 :: r))%nat with n by lia.
  unfold int_add at 1. cbn [Nat.add].
  destruct (Z.of_nat n <=? INT_MAX); [|reflexivity].
  now rewrite pattern_after_overflow.
Qed.

(** When the classifier is defined on a line with the pattern, [i + 4] is
    in the range of [int]. *)
Lemma preprocess_hex_str_pattern_range (s : str) (st : state) :
  hex_line s = true -> preprocess_hex_str s st <> None ->
  Z.of_nat (leading_cr s) + 4 <= INT_MAX.
Proof.
  intros H Hp. unfold leading_cr.
  destruct (Z_le_gt_dec (Z.of_nat (length s - length (drop_cr s)) + 4) INT_MAX)
    as [Hle|Hgt]; [exact Hle|].
  exfalso. apply Hp. rewrite preprocess_hex_str_unfold.
  unfold int_add at 1. cbn [Nat.add].
  destruct (Z.of_nat (length s - length (drop_cr s)) <=? INT_MAX);
    [|reflexivity].
  unfold hex_line in H.
  destruct (drop_cr s) as [|c0 [|c1 [|c2 [|c3 [|c4 r]]]]]; try discriminate.
  apply andb_true_iff in H as [H H4]. apply andb_true_iff in H as [H H3].
  apply andb_true_iff in H as [H H2]. apply andb_true_iff in H as [H0 H1].
  rewrite pattern_after_overflow; [reflexivity | assumption.. | lia].
Qed.

(** An accepted line behind so many carriage returns. *)
Lemma preprocess_hex_str_cr_pattern (n : nat) (s : str) (st : state) :
  hex_line s = true -> drop_cr s = s -> INT_MAX < Z.of_nat (n + 4) ->
  preprocess_hex_str (repeat CR n ++ s) st = None.
Proof.
  intros H Hd Ho. unfold hex_line in H. rewrite Hd in H.
  destruct s as [|c0 [|c1 [|c2 [|c3 [|c4 r]]]]]; try discriminate.
  apply andb_true_iff in H as [H H4]. apply andb_true_iff in H as [H H3].
  apply andb_true_iff in H as [H H2]. apply andb_true_iff in H as [H0 H1].
  now apply preprocess_hex_str_cr_four.
Qed.

(** ** The offset text *)

Ltac Zify.zify_post_hook ::= Z.to_euclidean_division_equations.

Lemma hex_digits_length (fuel : nat) (n : Z) (acc : str) :
  (length (hex_digits fuel n acc) <= length acc + fuel)%nat.
Proof.
  revert n acc. induction fuel as [|fuel IH]; intros n acc; simpl; [lia|].
  destruct (n =? 0); [lia|].
  specialize (IH (n / 16) (hex_digit (n mod 16) :: acc)). simpl in IH. lia.
Qed.

Lemma hex_digits_small (fuel k : nat) (n : Z) (acc : str) :
  0 <= n < 16 ^ Z.of_nat k ->
  (length (hex_digits fuel n acc) <= length acc + k)%nat.
Proof.
  revert k n acc. induction fuel as [|fuel IH]; intros k n acc Hn; simpl; [lia|].
  destruct (Z.eqb_spec n 0) as [E|E]; [lia|].
  destruct k as [|k]; [simpl in Hn; lia|].
  rewrite Nat2Z.inj_succ, Z.pow_succ_r in Hn by lia.
  specialize (IH k (n / 16) (hex_digit (n mod 16) :: acc)).
  simpl in IH. assert (0 <= n / 16 < 16 ^ Z.of_nat k).
  { split; [apply Z.div_pos; lia|]. apply Z.div_lt_upper_bound; lia. }
  specialize (IH H). lia.
Qed.

Lemma fmt06x_length (n : Z) : (6 <= length (fmt06x n) <= 8)%nat.
Proof.
  unfold fmt06x. rewrite length_app, repeat_length.
  pose proof (hex_digits_length 8 n []) as H. cbn [length] in H. lia.
Qed.

(** Below 2^24 the offset has exactly six digits. *)
Lemma fmt06x_length_6 (n : Z) : 0 <= n < 2 ^ 24 -> length (fmt06x n) = 6%nat.
Proof.
  intros Hn. unfold fmt06x. rewrite length_app, repeat_length.
  pose proof (hex_digits_small 8 6 n []) as H. cbn [length] in H.
  change (16 ^ Z.of_nat 6) with (2 ^ 24) in H. specialize (H Hn). lia.
Qed.

Lemma digit_value_hex_digit (n : Z) :
  digit_value (hex_digit (n mod 16)) = n mod 16.
Proof.
  assert (H : 0 <= n mod 16 < 16) by (apply Z.mod_pos_bound; lia).
  assert (Hc : forall k, (k < 16)%nat ->
                 digit_value (hex_digit (Z.of_nat k)) = Z.of_nat k).
  { intros k Hk. do 16 (destruct k as [|k]; [reflexivity|]). lia. }
  rewrite <- (Z2Nat.id (n mod 16)) at 1 by lia.
  rewrite Hc by lia. lia.
Qed.

Lemma hex_value_hex_digits (fuel : nat) (n : Z) (acc : str) :
  0 <= n < 16 ^ Z.of_nat fuel ->
  hex_value (hex_digits fuel n acc)
  = fold_left (fun v c => 16 * v + digit_value c) acc n.
Proof.
  unfold hex_value. revert n acc.
  induction fuel as [|fuel IH]; intros n acc Hn.
  - cbn in Hn. cbn [hex_digits]. f_equal. lia.
  - cbn [hex_digits]. destruct (Z.eqb_spec n 0) as [E|E]; [now subst|].
    rewrite Nat2Z.inj_succ, Z.pow_succ_r in Hn by lia.
    rewrite IH.
    + cbn [fold_left]. rewrite digit_value_hex_digit. f_equal.
      pose proof (Z.div_mod n 16). lia.
    + split; [apply Z.div_pos; lia|]. apply Z.div_lt_upper_bound; lia.
Qed.

(** Reading the offset text back gives the counter. *)
Lemma hex_value_fmt06x (n : Z) : 0 <= n < 2 ^ 32 -> hex_value (fmt06x n) = n.
Proof.
  intros Hn. unfold fmt06x.
  assert (Hz : forall k : nat,
             fold_left (fun v c => 16 * v + digit_value c)
               (repeat (ascii_of_nat 48) k) 0 = 0).
  { induction k as [|k IH]; [reflexivity|]. cbn [repeat fold_left].
    change (16 * 0 + digit_value (ascii_of_nat 48)) with 0. exact IH. }
  pose proof (hex_value_hex_digits 8 n []) as H.
  change (16 ^ Z.of_nat 8) with (2 ^ 32) in H. specialize (H Hn).
  unfold hex_value in *. rewrite fold_left_app, Hz. exact H.
Qed.

(** ** The text of a row *)

Lemma pair_ind (P : str -> Prop) :
  P [] -> (forall a, P [a]) -> (forall a b l, P l -> P (a :: b :: l)) ->
  forall l, P l.
Proof.
  intros H0 H1 H2. fix IH 1. intros [|a [|b l]].
  - exact H0.
  - apply H1.
  - apply H2, IH.
Qed.

Lemma sep_length (j : nat) : (length (sep j) <= 2)%nat.
Proof.
  unfold sep. destruct (j =? 16)%nat; [simpl; lia|].
  destruct (j =? 8)%nat; simpl; lia.
Qed.

Lemma groups_length (ds : str) (j : nat) :
  (length (groups j ds) <= 2 * length ds)%nat.
Proof.
  revert j. induction ds as [|a|a b l IH] using pair_ind; intros j;
    cbn [groups length]; try lia.
  rewrite length_app. pose proof (sep_length (S j)). specialize (IH (S j)). lia.
Qed.

(** Appending one digit to a row: after the second digit of a byte comes
    the separator of that byte. *)
Lemma groups_snoc (cur : str) (j : nat) (d : ascii) :
  groups j (cur ++ [d])
  = groups j cur ++ [d]
    ++ (if (length cur mod 2 =? 1)%nat
        then sep (j + (length cur + 1) / 2) else []).
Proof.
  revert j. induction cur as [|a|a b l IH] using pair_ind; intros j.
  - reflexivity.
  - cbn. now rewrite app_nil_r, Nat.add_1_r.
  - cbn [app groups length]. rewrite IH.
    replace (S (S (length l)) mod 2)%nat with (length l mod 2)%nat by lia.
    replace (j + (S (S (length l)) + 1) / 2)%nat
      with (S j + (length l + 1) / 2)%nat by lia.
    now rewrite <- !app_assoc, <- !app_comm_cons.
Qed.

Lemma row_length (g : Z) (ds : str) :
  (7 <= length (row g ds) <= 9 + 2 * length ds)%nat.
Proof.
  unfold row. rewrite !length_app. cbn [length].
  pose proof (fmt06x_length g). pose proof (groups_length ds 0). lia.
Qed.

Lemma row_snoc (g : Z) (cur : str) (d : ascii) :
  row g (cur ++ [d])
  = row g cur ++ [d]
    ++ (if (length cur mod 2 =? 1)%nat
        then sep ((length cur + 1) / 2) else []).
Proof. unfold row. now rewrite groups_snoc, !app_assoc. Qed.

(** ** The loop invariant of the formatter *)

Lemma fresh_row_inv (g : Z) : row_inv g [] (fresh_row g).
Proof.
  pose proof (fmt06x_length g) as H.
  unfold fresh_row. split; cbn [line cidx num_hex last_space length].
  - unfold row. reflexivity.
  - rewrite length_app. cbn [length]. unfold u32. lia.
  - reflexivity.
  - rewrite length_app. cbn [length]. unfold u32. lia.
  - lia.
Qed.

(** Settle a test of the code whose outcome follows by arithmetic. *)
Ltac test_is b t :=
  replace t with b
    by (symmetry;
        first [apply Z.eqb_eq | apply Z.eqb_neq | apply Z.ltb_lt
              | apply Z.ltb_ge | apply Nat.eqb_eq | apply Nat.eqb_neq];
        lia).

(** Lines 104-123 on a digit [d]: the row gains [d] and, when [d] ends a
    byte, the separator of that byte. *)
Lemma close_byte_push (g : Z) (cur : str) (l : locals) (d : ascii) :
  row_inv g cur l ->
  let l' := close_byte (push d l) in
  line l' = row g (cur ++ [d]) /\
  cidx l' = Z.of_nat (length (line l')) /\
  num_hex l' = Z.of_nat ((length cur + 1) / 2) /\
  ((length cur < 31)%nat ->
   last_space l' = cidx l' - 1 - Z.of_nat ((length cur + 1) mod 2)).
Proof.
  intros [Hl Hc Hn Hs Hr]. destruct l as [c ls nh ln].
  cbn [line cidx num_hex last_space] in *. subst ln.
  pose proof (row_length g cur) as Hlen.
  rewrite row_snoc.
  unfold close_byte, push, incr_num_hex, push_sep.
  cbn [line cidx num_hex last_space].
  assert (Hu : u32 (u32 (c + 1) - ls) = 2 + Z.of_nat (length cur mod 2)).
  { unfold u32. lia. }
  rewrite Hu. assert (Hc1 : u32 (c + 1) = c + 1) by (unfold u32; lia).
  rewrite Hc1.
  destruct (Nat.eqb_spec (length cur mod 2) 1) as [Hodd|Heven].
  - assert (Hk : u8 (nh + 1) = Z.of_nat ((length cur + 1) / 2)).
    { unfold u8. lia. }
    test_is true (2 <? 2 + Z.of_nat (length cur mod 2)).
    cbn [line cidx num_hex last_space]. rewrite Hk.
    unfold sep.
    destruct (Nat.eqb_spec ((length cur + 1) / 2) 16) as [E16|E16].
    + test_is false (Z.of_nat ((length cur + 1) / 2) =? 8).
      cbn [line cidx num_hex last_space].
      test_is true (Z.of_nat ((length cur + 1) / 2) =? 16).
      cbn [negb line cidx num_hex last_space].
      rewrite app_nil_r. repeat split; try lia.
      rewrite length_app. cbn [length]. lia.
    + destruct (Nat.eqb_spec ((length cur + 1) / 2) 8) as [E8|E8].
      * test_is true (Z.of_nat ((length cur + 1) / 2) =? 8).
        cbn [line cidx num_hex last_space].
        test_is false (Z.of_nat ((length cur + 1) / 2) =? 16).
        cbn [negb line cidx num_hex last_space].
        rewrite <- !app_assoc. cbn [app].
        repeat split; rewrite ?length_app; cbn [length]; unfold u32; lia.
      * test_is false (Z.of_nat ((length cur + 1) / 2) =? 8).
        cbn [line cidx num_hex last_space].
        test_is false (Z.of_nat ((length cur + 1) / 2) =? 16).
        cbn [negb line cidx num_hex last_space].
        rewrite <- !app_assoc. cbn [app].
        repeat split; rewrite ?length_app; cbn [length]; unfold u32; lia.
  - test_is false (2 <? 2 + Z.of_nat (length cur mod 2)).
    cbn [line cidx num_hex last_space]. rewrite app_nil_r.
    repeat split; rewrite ?length_app; cbn [length]; lia.
Qed.

(** ** The loop *)

Lemma scan_app (a b : str) (st : state) (l : locals) :
  scan (a ++ b) st l = let (st', l') := scan a st l in scan b st' l'.
Proof.
  revert st l. induction a as [|c a IH]; intros st l; simpl; [reflexivity|].
  destruct (step c st l) as [st' l']. apply IH.
Qed.

(** Only the hex digits of the input matter, and only their lowercase. *)
Lemma scan_xdigits (s : str) (st : state) (l : locals) :
  scan s st l = scan (xdigits s) st l.
Proof.
  revert st l. unfold xdigits.
  induction s as [|c s IH]; intros st l; simpl; [reflexivity|].
  destruct (isxdigit c) eqn:E; simpl.
  - assert (Hs : step (tolower c) st l = step c st l).
    { unfold step. now rewrite tolower_idem. }
    rewrite Hs. destruct (step c st l) as [st' l']. apply IH.
  - unfold step. rewrite isxdigit_tolower, E. apply IH.
Qed.

(** A digit that does not complete the row. *)
Lemma step_partial (g : Z) (cur : str) (l : locals) (d : ascii) (st : state) :
  row_inv g cur l -> lxdigit d -> (length cur < 31)%nat ->
  exists l', step d st l = (st, l') /\ row_inv g (cur ++ [d]) l'.
Proof.
  intros Hinv [Hx Hl] Hlt. unfold step. rewrite Hl, Hx.
  destruct (close_byte_push g cur l d Hinv) as (H1 & H2 & H3 & H4).
  rewrite H3.
  test_is false (Z.of_nat ((length cur + 1) / 2) =? 16).
  eexists. split; [reflexivity|].
  split; rewrite ?length_app; cbn [length]; auto; lia.
Qed.

(** The digit that completes the row: the row is written and the next
    one starts 16 further. *)
Lemma step_full (g : Z) (cur : str) (l : locals) (d : ascii) (st : state) :
  row_inv g cur l -> lxdigit d -> length cur = 31%nat ->
  step d st l
  = (set_prefix (u32 (gLinePrefix st + 16))
       (write_line 16 (row g (cur ++ [d])) st),
     fresh_row (u32 (gLinePrefix st + 16))).
Proof.
  intros Hinv [Hx Hl] Hlen. unfold step. rewrite Hl, Hx.
  destruct (close_byte_push g cur l d Hinv) as (H1 & H2 & H3 & H4).
  rewrite H3, H1, Hlen. reflexivity.
Qed.

Lemma scan_partial (a cur : str) (g : Z) (l : locals) (st : state) :
  row_inv g cur l -> Forall lxdigit a -> (length cur + length a < 32)%nat ->
  exists l', scan a st l = (st, l') /\ row_inv g (cur ++ a) l'.
Proof.
  revert cur l. induction a as [|d a IH]; intros cur l Hinv Ha Hlen.
  - exists l. rewrite app_nil_r. now split.
  - inversion Ha as [|? ? Hd Ha']; subst. cbn [length] in Hlen.
    destruct (step_partial g cur l d st Hinv Hd ltac:(lia)) as (l1 & Hs & Hi).
    destruct (IH (cur ++ [d]) l1 Hi Ha') as (l2 & Hs2 & Hi2).
    { rewrite length_app. cbn [length]. lia. }
    exists l2. cbn [scan]. rewrite Hs. split; [exact Hs2|].
    now rewrite <- app_assoc in Hi2.
Qed.

Lemma scan_fill (a cur : str) (g : Z) (l : locals) (st : state) :
  row_inv g cur l -> Forall lxdigit a -> a <> [] ->
  (length cur + length a = 32)%nat ->
  scan a st l
  = (set_prefix (u32 (gLinePrefix st + 16))
       (write_line 16 (row g (cur ++ a)) st),
     fresh_row (u32 (gLinePrefix st + 16))).
Proof.
  intros Hinv Ha Hne Hlen.
  destruct (exists_last Hne) as (a' & d & ->).
  apply Forall_app in Ha as [Ha' Hd]. inversion Hd as [|? ? Hd' _]; subst.
  rewrite length_app in Hlen. cbn [length] in Hlen.
  destruct (scan_partial a' cur g l st Hinv Ha' ltac:(lia)) as (l1 & Hs & Hi).
  rewrite scan_app, Hs. cbn [scan].
  rewrite (step_full g (cur ++ a') l1 d st Hi Hd').
  - now rewrite <- app_assoc.
  - rewrite length_app. lia.
Qed.

(** [n] rows of 32 digits each. *)
Lemma scan_full_rows (n : nat) (ds rest : str) (st : state) :
  Forall lxdigit ds -> length ds = (32 * n)%nat ->
  scan (ds ++ rest) st (fresh_row (gLinePrefix st))
  = scan rest (emit_full n ds st)
      (fresh_row (gLinePrefix (emit_full n ds st))).
Proof.
  revert ds st. induction n as [|n IH]; intros ds st Hds Hlen.
  - destruct ds; [reflexivity|discriminate].
  - rewrite <- (firstn_skipn 32 ds) at 1. rewrite <- app_assoc, scan_app.
    rewrite <- (firstn_skipn 32 ds) in Hds. apply Forall_app in Hds as [H1 H2].
    assert (Hf : length (firstn 32 ds) = 32%nat) by (rewrite length_firstn; lia).
    rewrite (scan_fill (firstn 32 ds) [] (gLinePrefix st) _ st
               (fresh_row_inv _) H1).
    + cbn [emit_full app].
      set (st1 := set_prefix _ _).
      change (u32 (gLinePrefix st + 16)) with (gLinePrefix st1).
      apply IH; [exact H2|]. rewrite length_skipn. lia.
    + intros E. rewrite E in Hf. discriminate.
    + cbn [length]. lia.
Qed.

Lemma leftover_length (ds : str) : (length (leftover ds) < 32)%nat.
Proof. unfold leftover. rewrite length_skipn. lia. Qed.

Lemma leftover_split (ds : str) :
  ds = firstn (32 * (length ds / 32)) ds ++ leftover ds.
Proof. unfold leftover. now rewrite firstn_skipn. Qed.

Lemma emit_full_firstn (n : nat) (ds : str) (st : state) :
  emit_full n (firstn (32 * n) ds) st = emit_full n ds st.
Proof.
  revert ds st. induction n as [|n IH]; intros ds st; [reflexivity|].
  cbn [emit_full]. rewrite firstn_firstn.
  replace (Nat.min 32 (32 * S n)) with 32%nat by lia.
  replace (32 * S n)%nat with (32 + 32 * n)%nat by lia.
  rewrite skipn_firstn_comm.
  replace (32 + 32 * n - 32)%nat with (32 * n)%nat by lia.
  apply IH.
Qed.

(** The loop and the final write on any input: the full rows, then the
    short row of the digits that are left. *)
Lemma scan_flush_spec (s : str) (st : state) :
  (let (st', l') := scan s st (fresh_row (gLinePrefix st)) in flush_last st' l')
  = emit_last (leftover (xdigits s))
      (emit_full (length (xdigits s) / 32) (xdigits s) st).
Proof.
  rewrite scan_xdigits.
  pose proof (xdigits_lxdigit s) as Hds. set (ds := xdigits s) in *.
  pose proof (leftover_length ds) as Hlt.
  rewrite (leftover_split ds) at 1. rewrite (leftover_split ds) in Hds.
  apply Forall_app in Hds as [H1 H2].
  rewrite (scan_full_rows (length ds / 32) _ (leftover ds) st H1).
  2:{ rewrite length_firstn. lia. }
  rewrite emit_full_firstn. set (st1 := emit_full _ ds st).
  destruct (scan_partial (leftover ds) [] (gLinePrefix st1) _ st1
              (fresh_row_inv _) H2 ltac:(cbn [length]; lia))
    as (l1 & Hs & [Hl Hc Hn Hsp Hr]).
  rewrite Hs. cbn [app] in *. unfold flush_last, emit_last.
  rewrite Hn, Hsp, Hl.
  destruct (leftover ds) as [|d r] eqn:E.
  - cbn. replace (u32 _) with 1 by (unfold u32; lia). reflexivity.
  - replace (negb _ || _) with true; [reflexivity|].
    symmetry. apply orb_true_iff. cbn [length] in *.
    destruct (Nat.eq_dec (length r) 0) as [E0|E0].
    + right. rewrite E0. apply Z.ltb_lt. unfold u32. cbn. lia.
    + left. apply negb_true_iff, Z.eqb_neq. lia.
Qed.

(** The [for] loop with its 32-bit index: on a string of fewer than 2^32
    characters it visits each character once and stops. *)
Lemma for_loop_app (suf pre : str) (fuel : nat) (st : state) (l : locals) :
  (length suf < fuel)%nat ->
  Z.of_nat (length (pre ++ suf)) < 2 ^ 32 ->
  for_loop fuel (pre ++ suf) (Z.of_nat (length pre)) st l
  = Some (scan suf st l).
Proof.
  revert pre fuel st l.
  induction suf as [|c suf IH]; intros pre fuel st l Hf Hlen;
    (destruct fuel as [|fuel]; [cbn [length] in Hf; lia|]); cbn [for_loop scan].
  - rewrite app_nil_r, Z.ltb_irrefl. reflexivity.
  - rewrite length_app in Hlen. cbn [length] in Hlen, Hf.
    replace (Z.of_nat (length pre) <? Z.of_nat (length (pre ++ c :: suf)))
      with true
      by (symmetry; apply Z.ltb_lt; rewrite length_app; cbn [length]; lia).
    rewrite Nat2Z.id.
    replace (length pre) with (length pre + 0)%nat at 1 by lia.
    rewrite str_at_app. cbn [str_at nth_error].
    destruct (step c st l) as [st' l'].
    replace (u32 (Z.of_nat (length pre) + 1))
      with (Z.of_nat (length (pre ++ [c])))
      by (rewrite length_app; cbn [length]; unfold u32; lia).
    replace (pre ++ c :: suf) with ((pre ++ [c]) ++ suf)
      by (now rewrite <- app_assoc).
    apply IH; [lia|]. rewrite !length_app. cbn [length]. lia.
Qed.

Lemma for_loop_scan (s : str) (st : state) (l : locals) :
  Z.of_nat (length s) < 2 ^ 32 ->
  for_loop (S (length s)) s 0 st l = Some (scan s st l).
Proof. intros H. apply (for_loop_app s [] (S (length s))); [lia | exact H]. Qed.

(** On a string of 2^32 characters or more the index wraps to 0 before it
    reaches the length: no number of iterations ends the loop. *)
Lemma for_loop_never_exits (s : str) (fuel : nat) :
  2 ^ 32 <= Z.of_nat (length s) ->
  forall (i : Z) (st : state) (l : locals),
    0 <= i < 2 ^ 32 -> for_loop fuel s i st l = None.
Proof.
  intros Hlen. induction fuel as [|fuel IH]; intros i st l Hi; [reflexivity|].
  cbn [for_loop].
  replace (i <? Z.of_nat (length s)) with true
    by (symmetry; apply Z.ltb_lt; lia).
  unfold str_at.
  destruct (nth_error s (Z.to_nat i)) as [ch|] eqn:E.
  - destruct (step ch st l) as [st' l']. apply IH. unfold u32. lia.
  - apply nth_error_None in E. lia.
Qed.

(** The formatter once the classifier has accepted the input. *)
Lemma gen_hexdump_loop (s : str) (st : state) :
  preprocess_hex_str s st = Some (true, st) ->
  Z.of_nat (length s) < 2 ^ 32 ->
  gen_hexdump s st
  = Some (emit_last (leftover (xdigits s))
            (emit_full (length (xdigits s) / 32) (xdigits s) st)).
Proof.
  intros Hp Hlen. unfold gen_hexdump. rewrite Hp, for_loop_scan by exact Hlen.
  pose proof (scan_flush_spec s st) as Hs.
  destruct (scan s st (fresh_row (gLinePrefix st))) as [st' l'].
  now rewrite Hs.
Qed.

Lemma gen_hexdump_never_returns (s : str) (st : state) :
  preprocess_hex_str s st = Some (true, st) ->
  2 ^ 32 <= Z.of_nat (length s) ->
  gen_hexdump s st = None.
Proof.
  intros Hp Hlen. unfold gen_hexdump.
  rewrite Hp, (for_loop_never_exits s _ Hlen) by lia. reflexivity.
Qed.

(** The formatter on an accepted input in the range of the two indices. *)
Lemma gen_hexdump_in_range (s : str) (st : state) :
  hex_line s = true -> int_index s -> u32_index s ->
  gen_hexdump s st
  = Some (emit_last (leftover (xdigits s))
            (emit_full (length (xdigits s) / 32) (xdigits s) st)).
Proof.
  intros H Hi Hu. apply gen_hexdump_loop; [|exact Hu].
  now rewrite preprocess_hex_str_int_index, H.
Qed.

(** The formatter on a rejected input: the loop is not reached. *)
Lemma gen_hexdump_rejected_in_range (s : str) (st : state) :
  hex_line s = false -> int_index s ->
  gen_hexdump s st = Some (reset_prefix st).
Proof.
  intros H Hi. unfold gen_hexdump.
  now rewrite preprocess_hex_str_int_index, H.
Qed.

(** The formatter on an accepted input of fewer than 2^31 characters. *)
Theorem gen_hexdump_accepted (s : str) (st : state) :
  hex_line s = true -> small s ->
  gen_hexdump s st
  = Some (emit_last (leftover (xdigits s))
            (emit_full (length (xdigits s) / 32) (xdigits s) st)).
Proof.
  intros H Hs. apply gen_hexdump_in_range;
    [exact H | now apply small_int_index | now apply small_u32_index].
Qed.

(** The formatter on a rejected input of fewer than 2^31 characters. *)
Theorem gen_hexdump_rejected (s : str) (st : state) :
  hex_line s = false -> small s -> gen_hexdump s st = Some (reset_prefix st).
Proof.
  intros H Hs. apply gen_hexdump_rejected_in_range;
    [exact H | now apply small_int_index].
Qed.

(** Whenever the formatter returns, it returns this state. *)
Lemma gen_hexdump_some (s : str) (st st' : state) :
  gen_hexdump s st = Some st' ->
  st' = if hex_line s
        then emit_last (leftover (xdigits s))
               (emit_full (length (xdigits s) / 32) (xdigits s) st)
        else reset_prefix st.
Proof.
  intros H.
  destruct (preprocess_hex_str s st) as [r|] eqn:Hp;
    [|unfold gen_hexdump in H; rewrite Hp in H; discriminate].
  pose proof (preprocess_hex_str_some s st r Hp) as Hr.
  destruct (hex_line s); subst r.
  - destruct (Z_lt_le_dec (Z.of_nat (length s)) (2 ^ 32)) as [Hl|Hl].
    + rewrite (gen_hexdump_loop s st Hp Hl) in H. now injection H as <-.
    + rewrite (gen_hexdump_never_returns s st Hp Hl) in H. discriminate.
  - unfold gen_hexdump in H. rewrite Hp in H. now injection H as <-.
Qed.

(** An accepted line followed by enough characters to reach 2^32: the
    loop of line 101 never exits. *)
Lemma gen_hexdump_long_line (s t : str) (st : state) :
  hex_line s = true -> int_index s -> 2 ^ 32 <= Z.of_nat (length (s ++ t)) ->
  gen_hexdump (s ++ t) st = None.
Proof.
  intros H Hs Hl. apply gen_hexdump_never_returns; [|exact Hl].
  rewrite preprocess_hex_str_app by now apply hex_line_length.
  now rewrite preprocess_hex_str_int_index, H.
Qed.

(** The same line followed by spaces up to 2^32 characters or more: it is
    accepted, its digits are those of the line, and the call does not
    return. *)
Lemma gen_hexdump_padded_line (s : str) (n : nat) (st : state) :
  hex_line s = true -> int_index s -> 2 ^ 32 <= Z.of_nat (length s) + Z.of_nat n ->
  hex_line (s ++ repeat SP n) = true
  /\ xdigits (s ++ repeat SP n) = xdigits s
  /\ gen_hexdump (s ++ repeat SP n) st = None.
Proof.
  intros H Hs Hn. split; [|split].
  - rewrite hex_line_app by now apply hex_line_length. exact H.
  - rewrite xdigits_app, xdigits_repeat by reflexivity. apply app_nil_r.
  - apply gen_hexdump_long_line; [exact H | exact Hs |].
    rewrite length_app, repeat_length. lia.
Qed.

(** An accepted line behind so many carriage returns that the [int] index
    of the classifier overflows at [line[i + 4]]: the call is undefined. *)
Lemma gen_hexdump_cr_line (s : str) (n : nat) (st : state) :
  hex_line s = true -> drop_cr s = s -> INT_MAX < Z.of_nat n + 4 ->
  hex_line (repeat CR n ++ s) = true
  /\ xdigits (repeat CR n ++ s) = xdigits s
  /\ gen_hexdump (repeat CR n ++ s) st = None.
Proof.
  intros H Hd Hn. split; [|split].
  - unfold hex_line in *. now rewrite drop_cr_repeat.
  - now rewrite xdigits_app, xdigits_repeat by reflexivity.
  - unfold gen_hexdump.
    rewrite (preprocess_hex_str_cr_pattern n s st H Hd); [reflexivity | lia].
Qed.

(** The loop stopped on the way has scanned some characters, and the loop
    that exits has made the same iterations. *)
Lemma iterations_scan (k : nat) (s : str) :
  forall (i : Z) (st : state) (l : locals) (r : state * locals),
    iterations k s i st l = Some r -> exists t, r = scan t st l.
Proof.
  induction k as [|k IH]; intros i st l r H; cbn [iterations] in H.
  - exists []. now injection H as <-.
  - destruct (i <? Z.of_nat (length s)).
    + destruct (str_at s (Z.to_nat i)) as [ch|]; [|discriminate].
      destruct (step ch st l) as [st' l'] eqn:E.
      destruct (IH _ _ _ _ H) as (t & Ht).
      exists (ch :: t). cbn [scan]. now rewrite E.
    + exists []. now injection H as <-.
Qed.

Lemma for_loop_iterations (fuel : nat) (s : str) :
  forall (i : Z) (st : state) (l : locals) (r : state * locals),
    for_loop fuel s i st l = Some r -> iterations fuel s i st l = Some r.
Proof.
  induction fuel as [|fuel IH]; intros i st l r H; cbn [for_loop] in H;
    [discriminate|]. cbn [iterations].
  destruct (i <? Z.of_nat (length s)); [|exact H].
  destruct (str_at s (Z.to_nat i)) as [ch|]; [|discriminate].
  destruct (step ch st l) as [st' l']. now apply IH.
Qed.

(** ** The state after the full rows *)

Lemma emit_full_ofs (n : nat) (ds : str) (st : state) :
  ofs (emit_full n ds st) = ofs st ++ full_rows n (gLinePrefix st) ds.
Proof.
  revert ds st. induction n as [|n IH]; intros ds st; cbn [emit_full full_rows].
  - now rewrite app_nil_r.
  - rewrite IH. cbn [ofs gLinePrefix set_prefix write_line].
    now rewrite <- app_assoc.
Qed.

Lemma emit_full_hist (n : nat) (ds : str) (st : state) :
  hist (emit_full n ds st)
  = hist st ++ map (Flush 16) (full_rows n (gLinePrefix st) ds).
Proof.
  revert ds st. induction n as [|n IH]; intros ds st; cbn [emit_full full_rows].
  - now rewrite app_nil_r.
  - rewrite IH. cbn [hist gLinePrefix set_prefix write_line map].
    now rewrite <- app_assoc.
Qed.

Lemma emit_full_prefix (n : nat) (ds : str) (st : state) :
  gLinePrefix (emit_full n ds st) = advance n (gLinePrefix st).
Proof.
  revert ds st. induction n as [|n IH]; intros ds st; cbn [emit_full advance].
  - reflexivity.
  - now rewrite IH.
Qed.

Lemma advance_u32 (n : nat) (g : Z) :
  0 <= g < 2 ^ 32 -> advance n g = u32 (g + 16 * Z.of_nat n).
Proof.
  revert g. induction n as [|n IH]; intros g Hg; cbn [advance].
  - unfold u32. lia.
  - rewrite IH by (unfold u32; lia). unfold u32.
    rewrite Zplus_mod_idemp_l. f_equal. lia.
Qed.

Lemma advance_small (n : nat) (g : Z) :
  0 <= g -> g + 16 * Z.of_nat n < 2 ^ 32 -> advance n g = g + 16 * Z.of_nat n.
Proof. intros H0 H1. rewrite advance_u32 by lia. unfold u32. lia. Qed.

Lemma full_rows_length (n : nat) (g : Z) (ds : str) :
  length (full_rows n g ds) = n.
Proof.
  revert g ds. induction n as [|n IH]; intros g ds; cbn [full_rows length];
    [reflexivity|]. now rewrite IH.
Qed.

Lemma chunk_succ (i : nat) (ds : str) : chunk (S i) ds = chunk i (skipn 32 ds).
Proof.
  unfold chunk. rewrite skipn_skipn. do 2 f_equal. lia.
Qed.

(** The rows one by one: row [i] holds the [i]-th run of 32 digits at
    offset [g + 16 * i]. *)
Lemma full_rows_seq (n : nat) (g : Z) (ds : str) :
  0 <= g -> g + 16 * Z.of_nat n < 2 ^ 32 ->
  full_rows n g ds
  = map (fun i => row (g + 16 * Z.of_nat i) (chunk i ds)) (seq 0 n).
Proof.
  revert g ds. induction n as [|n IH]; intros g ds H0 H1; [reflexivity|].
  cbn [full_rows seq map]. f_equal.
  - unfold chunk. cbn [Nat.mul skipn]. f_equal. lia.
  - rewrite <- seq_shift, map_map.
    replace (u32 (g + 16)) with (g + 16) by (unfold u32; lia).
    rewrite IH by lia. apply map_ext. intros i.
    rewrite chunk_succ. f_equal. lia.
Qed.

Lemma chunk_length (i : nat) (ds : str) :
  (32 * S i <= length ds)%nat -> length (chunk i ds) = 32%nat.
Proof. intros H. unfold chunk. rewrite length_firstn, length_skipn. lia. Qed.

(** ** Rows as groups with gaps *)

Lemma pairs_length (ds : str) : length (pairs ds) = ((length ds + 1) / 2)%nat.
Proof.
  induction ds as [|a|a b l IH] using pair_ind; cbn [pairs length];
    [reflexivity|reflexivity|]. rewrite IH. lia.
Qed.

Lemma pairs_two (ds : str) :
  (length ds mod 2 = 0)%nat -> Forall (fun p => length p = 2%nat) (pairs ds).
Proof.
  induction ds as [|a|a b l IH] using pair_ind; cbn [pairs length]; intros H.
  - constructor.
  - cbn in H. discriminate.
  - constructor; [reflexivity|]. apply IH. lia.
Qed.

Lemma groups_join (ds : str) (j : nat) :
  (j + (length ds + 1) / 2 <= 16)%nat ->
  groups j ds
  = join_groups j (pairs ds)
    ++ (if (length ds mod 2 =? 1)%nat then []
        else match ds with [] => [] | _ => sep (j + length ds / 2) end).
Proof.
  revert j. induction ds as [|a|a b l IH] using pair_ind; intros j Hj.
  - reflexivity.
  - reflexivity.
  - cbn [length] in Hj. cbn [groups pairs join_groups length].
    replace (S (S (length l)) mod 2)%nat with (length l mod 2)%nat by lia.
    replace (j + S (S (length l)) / 2)%nat
      with (S j + length l / 2)%nat by lia.
    rewrite (IH (S j)) by lia.
    destruct l as [|c l'].
    + cbn. now rewrite Nat.add_0_r, app_nil_r.
    + assert (Hp : pairs (c :: l') <> []) by (destruct l'; discriminate).
      destruct (pairs (c :: l')) as [|p ps] eqn:E; [contradiction|].
      assert (Hs : sep (S j) = gap (S j)).
      { unfold sep, gap. cbn [length] in Hj.
        destruct (Nat.eqb_spec (S j) 16); [lia|reflexivity]. }
      rewrite Hs. cbn [app]. now rewrite <- !app_assoc.
Qed.

(** A row of at most 16 bytes: offset, one space, the groups with their
    gaps, and the trailer. *)
Lemma row_layout (g : Z) (ds : str) :
  (1 <= length ds <= 32)%nat ->
  row g ds = fmt06x g ++ [SP] ++ join_groups 0 (pairs ds) ++ trailer ds.
Proof.
  intros H. unfold row, trailer. rewrite groups_join by lia.
  destruct ds; [cbn in H; lia|]. reflexivity.
Qed.

(** ** The classifier: claims C5 and C6 *)

(** The ranges of the indices on a given string. *)
Ltac in_range := vm_compute; first [reflexivity | discriminate].

(** C5, as the code has it.  On a line that keeps the index of the
    classifier in the range of [int], one with fewer than 2^31 - 4 leading
    carriage returns or with fewer than 2^31 characters, the classifier
    makes no undefined read, and it returns true exactly when, after the
    leading carriage returns, the line starts with two hex digits, a blank
    and two more hex digits ([hex_line]); a line it accepts leaves the
    state as it was; for a line it rejects it stores 0 in [gLinePrefix],
    and [gen_hexdump] returns at once, with that state and nothing
    written. *)
Theorem preprocess_hex_str_classifies (s : str) (st : state) :
  int_index s ->
  match preprocess_hex_str s st with
  | Some (true, st') => hex_line s = true /\ st' = st
  | Some (false, st') =>
      hex_line s = false /\ gLinePrefix st' = 0 /\ ofs st' = ofs st
      /\ gen_hexdump s st = Some st'
  | None => False
  end.
Proof.
  intros Hs. pose proof (gen_hexdump_rejected_in_range s st) as Hr.
  rewrite preprocess_hex_str_int_index by exact Hs.
  destruct (hex_line s); [now split|].
  split; [reflexivity|]. split; [reflexivity|]. split; [reflexivity|].
  now apply Hr.
Qed.

Lemma preprocess_hex_str_classifies_witness :
  match preprocess_hex_str (lit "0a 0b") init with
  | Some (true, st') => hex_line (lit "0a 0b") = true /\ st' = init
  | Some (false, st') =>
      hex_line (lit "0a 0b") = false /\ gLinePrefix st' = 0
      /\ ofs st' = ofs init /\ gen_hexdump (lit "0a 0b") init = Some st'
  | None => False
  end.
Proof.
  apply (preprocess_hex_str_classifies (lit "0a 0b") init). in_range.
Defined.

(** C5, as the claim has it, fails on the line of 2^31 - 4 carriage
    returns followed by [0a 0b]: after the carriage returns come two hex
    digits, a blank and two hex digits, but the classifier does not return
    true, since the index [i + 4] of its fifth test is 2^31, out of the
    range of [int]. *)
Lemma preprocess_hex_str_pattern_overflow :
  hex_line (repeat CR (Z.to_nat (2 ^ 31 - 4)) ++ lit "0a 0b") = true
  /\ preprocess_hex_str (repeat CR (Z.to_nat (2 ^ 31 - 4)) ++ lit "0a 0b") init
     = None.
Proof.
  split.
  - unfold hex_line. rewrite drop_cr_repeat. reflexivity.
  - apply (preprocess_hex_str_cr_pattern (Z.to_nat (2 ^ 31 - 4)) (lit "0a 0b")
             init); [reflexivity | reflexivity |].
    rewrite Nat2Z.inj_add, Z2Nat.id by (clear; lia).
    unfold INT_MAX. clear. lia.
Qed.

(** C6, as the code has it.  A line with fewer than five characters after
    its leading carriage returns, the empty line among them, that keeps
    the index of the classifier in the range of [int], is classified as
    not hex, and the classifier reads no position beyond [size()], the
    position of the terminating NUL: its result is not the [None] of an
    undefined read. *)
Theorem preprocess_hex_str_short_line (s : str) (st : state) :
  int_index s ->
  (length (drop_cr s) < 5)%nat ->
  preprocess_hex_str s st = Some (false, reset_prefix st).
Proof.
  intros Hs H. rewrite preprocess_hex_str_int_index by exact Hs.
  unfold hex_line.
  destruct (drop_cr s) as [|c0 [|c1 [|c2 [|c3 [|c4 t]]]]];
    try reflexivity. cbn [length] in H. lia.
Qed.

Lemma preprocess_hex_str_short_line_witness :
  preprocess_hex_str [CR; CR] init = Some (false, reset_prefix init)
  /\ preprocess_hex_str (lit "ab c") init = Some (false, reset_prefix init).
Proof.
  split.
  - apply (preprocess_hex_str_short_line [CR; CR] init);
      [in_range | cbn; lia].
  - apply (preprocess_hex_str_short_line (lit "ab c") init);
      [in_range | cbn; lia].
Defined.

(** C6, as the claim has it, fails on a line of 2^31 carriage returns:
    nothing is left after them, so the line is short, but the [int] index
    of line 71 overflows on the way, and [line[i]] is read outside the
    string.  It fails as well behind 2^31 - 4 carriage returns on the four
    characters [0a 0], which pass their tests: the fifth test reads
    [line[i + 4]] with the index 2^31. *)
Lemma preprocess_hex_str_int_overflow :
  (length (drop_cr (repeat CR (Z.to_nat (2 ^ 31)))) = 0%nat
   /\ preprocess_hex_str (repeat CR (Z.to_nat (2 ^ 31))) init = None)
  /\ (length (drop_cr (repeat CR (Z.to_nat (2 ^ 31 - 4)) ++ lit "0a 0")) = 4%nat
      /\ preprocess_hex_str (repeat CR (Z.to_nat (2 ^ 31 - 4)) ++ lit "0a 0")
           init = None).
Proof.
  split.
  - apply (preprocess_hex_str_cr_overflow (Z.to_nat (2 ^ 31)) init).
    rewrite Z2Nat.id by (clear; lia). unfold INT_MAX. clear. lia.
  - split; [rewrite drop_cr_repeat; reflexivity|].
    apply (preprocess_hex_str_cr_four (Z.to_nat (2 ^ 31 - 4))
             "0" "a" " " "0" [] init);
      [reflexivity | reflexivity | reflexivity | reflexivity |].
    rewrite Nat2Z.inj_add, Z2Nat.id by (clear; lia).
    unfold INT_MAX. clear. lia.
Qed.

(** ** What a call writes *)

Lemma hex_digit_lxdigit (n : Z) : lxdigit (hex_digit (n mod 16)).
Proof.
  assert (H : 0 <= n mod 16 < 16) by (apply Z.mod_pos_bound; lia).
  assert (Hc : forall k, (k < 16)%nat -> lxdigit (hex_digit (Z.of_nat k))).
  { intros k Hk. do 16 (destruct k as [|k]; [now split|]). lia. }
  rewrite <- (Z2Nat.id (n mod 16)) by lia. apply Hc. lia.
Qed.

Lemma hex_digits_lxdigit (fuel : nat) (n : Z) (acc : str) :
  Forall lxdigit acc -> Forall lxdigit (hex_digits fuel n acc).
Proof.
  revert n acc. induction fuel as [|fuel IH]; intros n acc Ha; simpl; [exact Ha|].
  destruct (n =? 0); [exact Ha|].
  apply IH. constructor; [apply hex_digit_lxdigit | exact Ha].
Qed.

Lemma fmt06x_lxdigit (n : Z) : Forall lxdigit (fmt06x n).
Proof.
  unfold fmt06x. apply Forall_app. split.
  - apply Forall_forall. intros c Hc. apply repeat_spec in Hc. subst c.
    now split.
  - apply hex_digits_lxdigit. constructor.
Qed.

Lemma emit_last_ofs (ds : str) (st : state) :
  ofs (emit_last ds st) = ofs st ++ short_row (gLinePrefix st) ds.
Proof. destruct ds; cbn; [now rewrite app_nil_r | reflexivity]. Qed.

Lemma emit_last_hist (ds : str) (st : state) :
  hist (emit_last ds st)
  = hist st
    ++ map (Flush (Z.of_nat (length ds / 2))) (short_row (gLinePrefix st) ds).
Proof. destruct ds; cbn -[Nat.div]; [now rewrite app_nil_r | reflexivity]. Qed.

Lemma emit_last_prefix (ds : str) (st : state) :
  gLinePrefix (emit_last ds st) = gLinePrefix st.
Proof. now destruct ds. Qed.

(** The state after the rows of the digits [ds]. *)
Lemma emit_state (ds : str) (st : state) :
  let n := (length ds / 32)%nat in
  let g := gLinePrefix st in
  let st' := emit_last (leftover ds) (emit_full n ds st) in
  gLinePrefix st' = advance n g /\
  ofs st' = ofs st ++ full_rows n g ds ++ short_row (advance n g) (leftover ds) /\
  hist st' = hist st ++ map (Flush 16) (full_rows n g ds)
             ++ map (Flush (Z.of_nat (length (leftover ds) / 2)))
                  (short_row (advance n g) (leftover ds)).
Proof.
  intros n g st'. subst st'.
  rewrite emit_last_prefix, emit_last_ofs, emit_last_hist.
  rewrite emit_full_prefix, emit_full_ofs, emit_full_hist.
  fold g. now rewrite <- !app_assoc.
Qed.

(** Everything an accepting call does to the state. *)
Lemma gen_hexdump_in_range_state (s : str) (st : state) :
  hex_line s = true -> int_index s -> u32_index s ->
  let ds := xdigits s in
  let n := (length ds / 32)%nat in
  let g := gLinePrefix st in
  exists st',
    gen_hexdump s st = Some st' /\
    gLinePrefix st' = advance n g /\
    ofs st' = ofs st ++ full_rows n g ds ++ short_row (advance n g) (leftover ds) /\
    hist st' = hist st ++ map (Flush 16) (full_rows n g ds)
               ++ map (Flush (Z.of_nat (length (leftover ds) / 2)))
                    (short_row (advance n g) (leftover ds)).
Proof.
  intros H Hi Hu ds n g. eexists. split; [now apply gen_hexdump_in_range|].
  apply emit_state.
Qed.

Lemma gen_hexdump_accepted_state (s : str) (st : state) :
  hex_line s = true -> small s ->
  let ds := xdigits s in
  let n := (length ds / 32)%nat in
  let g := gLinePrefix st in
  exists st',
    gen_hexdump s st = Some st' /\
    gLinePrefix st' = advance n g /\
    ofs st' = ofs st ++ full_rows n g ds ++ short_row (advance n g) (leftover ds) /\
    hist st' = hist st ++ map (Flush 16) (full_rows n g ds)
               ++ map (Flush (Z.of_nat (length (leftover ds) / 2)))
                    (short_row (advance n g) (leftover ds)).
Proof.
  intros H Hs ds n g. eexists. split; [now apply gen_hexdump_accepted|].
  apply emit_state.
Qed.

(** The same of an accepting call that is known to return. *)
Lemma gen_hexdump_some_state (s : str) (st st' : state) :
  hex_line s = true -> gen_hexdump s st = Some st' ->
  let ds := xdigits s in
  let n := (length ds / 32)%nat in
  let g := gLinePrefix st in
  gLinePrefix st' = advance n g /\
  ofs st' = ofs st ++ full_rows n g ds ++ short_row (advance n g) (leftover ds) /\
  hist st' = hist st ++ map (Flush 16) (full_rows n g ds)
             ++ map (Flush (Z.of_nat (length (leftover ds) / 2)))
                  (short_row (advance n g) (leftover ds)).
Proof.
  intros H Hg ds n g. apply gen_hexdump_some in Hg. rewrite H in Hg. subst st'.
  apply emit_state.
Qed.

Lemma leftover_nil (ds : str) (n : nat) :
  length ds = (32 * n)%nat -> leftover ds = [].
Proof.
  intros H. unfold leftover. apply skipn_all2. rewrite H. lia.
Qed.

Lemma trailer_full (ds : str) : length ds = 32%nat -> trailer ds = [].
Proof. intros H. unfold trailer. now rewrite H. Qed.

Lemma row_laid_out (g : Z) (ds : str) :
  (1 <= length ds <= 32)%nat -> Forall lxdigit ds -> laid_out (row g ds).
Proof.
  intros Hl Hd. exists g, ds. repeat split; try lia; try assumption.
  - apply fmt06x_lxdigit.
  - now apply row_layout.
  - intros H32. rewrite row_layout by lia. now rewrite trailer_full, app_nil_r.
Qed.

Lemma full_rows_laid_out (n : nat) (g : Z) (ds : str) :
  (32 * n <= length ds)%nat -> Forall lxdigit ds ->
  Forall laid_out (full_rows n g ds).
Proof.
  revert g ds. induction n as [|n IH]; intros g ds Hl Hd; cbn [full_rows];
    constructor.
  - apply row_laid_out.
    + rewrite length_firstn. lia.
    + rewrite <- (firstn_skipn 32 ds) in Hd. now apply Forall_app in Hd.
  - apply IH.
    + rewrite length_skipn. lia.
    + rewrite <- (firstn_skipn 32 ds) in Hd. now apply Forall_app in Hd.
Qed.

Lemma leftover_lxdigit (ds : str) : Forall lxdigit ds -> Forall lxdigit (leftover ds).
Proof.
  intros H. rewrite (leftover_split ds) in H. now apply Forall_app in H.
Qed.

Lemma short_row_laid_out (g : Z) (ds : str) :
  (length ds < 32)%nat -> Forall lxdigit ds -> Forall laid_out (short_row g ds).
Proof.
  intros Hl Hd. destruct ds as [|d ds]; constructor; [|constructor].
  apply row_laid_out; [cbn [length] in *; lia | exact Hd].
Qed.

(** ** Many lines of zero bytes *)

Lemma gen_hexdump_seq_app (a b : list str) (st : state) :
  gen_hexdump_seq (a ++ b) st
  = match gen_hexdump_seq a st with
    | Some st' => gen_hexdump_seq b st'
    | None => None
    end.
Proof.
  revert st. induction a as [|s a IH]; intros st; cbn [app gen_hexdump_seq];
    [reflexivity|]. destruct (gen_hexdump s st); [apply IH | reflexivity].
Qed.

(** One line of 16 zero bytes: one full row, the counter 16 further. *)
Lemma gen_hexdump_zero_line (st : state) :
  gen_hexdump zero_line st
  = Some (set_prefix (u32 (gLinePrefix st + 16))
            (write_line 16 (row (gLinePrefix st) (repeat (ascii_of_nat 48) 32))
               st)).
Proof.
  rewrite gen_hexdump_accepted by (vm_compute; reflexivity). reflexivity.
Qed.

Lemma gen_hexdump_seq_zero_lines (m : nat) :
  16 * Z.of_nat m < 2 ^ 32 ->
  exists st,
    gen_hexdump_seq (repeat zero_line m) init = Some st /\
    gLinePrefix st = 16 * Z.of_nat m /\
    rows_since_reset (hist st) = m.
Proof.
  induction m as [|m IH]; intros Hm.
  - exists init. split; [reflexivity|]. split; reflexivity.
  - destruct IH as (st & Hs & Hp & Hc); [lia|].
    cbn [repeat]. rewrite repeat_cons, gen_hexdump_seq_app, Hs.
    cbn [gen_hexdump_seq]. rewrite gen_hexdump_zero_line.
    eexists. split; [reflexivity|].
    cbn [gLinePrefix hist set_prefix write_line]. split.
    + rewrite Hp. unfold u32. lia.
    + unfold rows_since_reset in *. rewrite fold_left_app, Hc. reflexivity.
Qed.

(** ** Claim C1 *)

(** C1, as the code has it.  An input that the classifier accepts, that
    holds 32 * N hex digits, that is 16 * N bytes, and that keeps the two
    indices in their ranges, with fewer than 2^31 - 4 leading carriage
    returns and fewer than 2^32 characters, makes [gen_hexdump], called
    with the counter at 0, write exactly N rows; row [i] is the offset
    [16 * i] as [%06x] prints it (six digits for the first 2^20 rows), a
    space, and the 16 two-digit groups of the [i]-th run of 32 digits,
    with no trailer. *)
Theorem gen_hexdump_whole_rows (s : str) (N : nat) :
  hex_line s = true ->
  int_index s -> u32_index s ->
  length (xdigits s) = (32 * N)%nat ->
  exists st',
    gen_hexdump s init = Some st' /\
    length (ofs st') = N /\
    ofs st'
    = map (fun i => fmt06x (16 * Z.of_nat i) ++ [SP]
                    ++ join_groups 0 (pairs (chunk i (xdigits s))))
        (seq 0 N) /\
    forall i, (i < N)%nat ->
      hex_value (fmt06x (16 * Z.of_nat i)) = 16 * Z.of_nat i /\
      (Z.of_nat i < 2 ^ 20 -> length (fmt06x (16 * Z.of_nat i)) = 6%nat) /\
      length (pairs (chunk i (xdigits s))) = 16%nat /\
      Forall (fun p => length p = 2%nat) (pairs (chunk i (xdigits s))).
Proof.
  intros Hacc Hint Hu32 Hlen.
  destruct (gen_hexdump_in_range_state s init Hacc Hint Hu32)
    as (st' & Hg & _ & Ho & _).
  cbv zeta in Ho. rewrite (leftover_nil _ N Hlen) in Ho.
  replace (length (xdigits s) / 32)%nat with N in Ho by (rewrite Hlen; lia).
  cbn [short_row ofs init app gLinePrefix] in Ho. rewrite app_nil_r in Ho.
  assert (Hchunk : forall i, (i < N)%nat ->
                     length (chunk i (xdigits s)) = 32%nat).
  { intros i Hi. apply chunk_length. lia. }
  assert (HN : 32 * Z.of_nat N < 2 ^ 32).
  { pose proof (xdigits_length_le s) as Hle. unfold u32_index in Hu32. lia. }
  exists st'. split; [exact Hg|]. rewrite Ho. split; [apply full_rows_length|].
  split.
  - rewrite full_rows_seq by lia. apply map_ext_in. intros i Hi.
    apply in_seq in Hi. cbn [Z.add].
    rewrite row_layout by (rewrite Hchunk; lia).
    now rewrite trailer_full, app_nil_r by (apply Hchunk; lia).
  - intros i Hi. specialize (Hchunk i Hi).
    split; [apply hex_value_fmt06x; lia|].
    split; [intros Hi'; apply fmt06x_length_6; lia|].
    split.
    + now rewrite pairs_length, Hchunk.
    + apply pairs_two. now rewrite Hchunk.
Qed.

Lemma gen_hexdump_whole_rows_witness :
  exists st',
    gen_hexdump (lit "00 112233445566778899AABBCCDDEEFF") init = Some st' /\
    length (ofs st') = 1%nat.
Proof.
  destruct (gen_hexdump_whole_rows
              (lit "00 112233445566778899AABBCCDDEEFF") 1)
    as (st' & H1 & H2 & _);
    [reflexivity | in_range | in_range | reflexivity |].
  exists st'. now split.
Defined.

(** C1, as the claim has it, fails.  Sixteen hex digits and nothing else:
    the classifier finds no blank at the third position, and nothing is
    written, where the claim has one full row.  With a blank after the
    first byte the line is accepted, and its sixteen digits make half a
    row, eight groups and the two spaces that follow the eighth.  And the
    indices have their ranges: the 47 characters of [zero_line], 32 digits,
    followed by spaces up to 2^32 characters, keep the 32-bit index of the
    loop below the length for ever, and behind 2^31 - 4 carriage returns
    they take the [int] index of the classifier to 2^31; neither call
    returns its one row. *)
Lemma gen_hexdump_sixteen_digits :
  length (xdigits (lit "0123456789abcdef")) = (16 * 1)%nat
  /\ forallb isxdigit (lit "0123456789abcdef") = true
  /\ option_map ofs (gen_hexdump (lit "0123456789abcdef") init) = Some []
  /\ option_map ofs (gen_hexdump (lit "01 23456789abcdef") init)
     = Some [lit "000000 01 23 45 67 89 ab cd ef  "]
  /\ (hex_line (zero_line ++ repeat SP (Z.to_nat (2 ^ 32 - 47))) = true
      /\ xdigits (zero_line ++ repeat SP (Z.to_nat (2 ^ 32 - 47)))
         = xdigits zero_line
      /\ gen_hexdump (zero_line ++ repeat SP (Z.to_nat (2 ^ 32 - 47))) init
         = None)
  /\ (hex_line (repeat CR (Z.to_nat (2 ^ 31 - 4)) ++ zero_line) = true
      /\ xdigits (repeat CR (Z.to_nat (2 ^ 31 - 4)) ++ zero_line)
         = xdigits zero_line
      /\ gen_hexdump (repeat CR (Z.to_nat (2 ^ 31 - 4)) ++ zero_line) init
         = None).
Proof.
  split; [vm_compute; reflexivity|]. split; [vm_compute; reflexivity|].
  split; [vm_compute; reflexivity|]. split; [vm_compute; reflexivity|].
  split.
  - apply (gen_hexdump_padded_line zero_line (Z.to_nat (2 ^ 32 - 47)) init);
      [reflexivity | in_range |].
    rewrite Z2Nat.id by (clear; lia).
    change (Z.of_nat (length zero_line)) with 47. clear. lia.
  - apply (gen_hexdump_cr_line zero_line (Z.to_nat (2 ^ 31 - 4)) init);
      [reflexivity | reflexivity |].
    rewrite Z2Nat.id by (clear; lia). unfold INT_MAX. clear. lia.
Qed.

(** ** Claim C3 *)

(** The rows written while the loop scans, from a fresh row on: the full
    rows of the digits met so far. *)
Lemma scan_fst (t : str) (st : state) :
  fst (scan t st (fresh_row (gLinePrefix st)))
  = emit_full (length (xdigits t) / 32) (xdigits t) st.
Proof.
  rewrite scan_xdigits.
  pose proof (xdigits_lxdigit t) as Hds. set (ds := xdigits t) in *.
  pose proof (leftover_length ds) as Hlt.
  rewrite (leftover_split ds) at 1. rewrite (leftover_split ds) in Hds.
  apply Forall_app in Hds as [H1 H2].
  rewrite (scan_full_rows (length ds / 32) _ (leftover ds) st H1)
    by (rewrite length_firstn; lia).
  rewrite emit_full_firstn. set (st1 := emit_full _ ds st).
  destruct (scan_partial (leftover ds) [] (gLinePrefix st1) _ st1
              (fresh_row_inv _) H2 ltac:(cbn [length]; lia))
    as (l1 & Hs & _).
  now rewrite Hs.
Qed.

Lemma scan_rows_laid_out (t : str) (st : state) :
  exists new,
    ofs (fst (scan t st (fresh_row (gLinePrefix st)))) = ofs st ++ new
    /\ Forall laid_out new.
Proof.
  rewrite scan_fst, emit_full_ofs. eexists. split; [reflexivity|].
  apply full_rows_laid_out; [lia | apply xdigits_lxdigit].
Qed.

(** C3. Whatever the input and the state, every row a call writes is laid
    out as [laid_out] says: the offset, one space, then the groups of two
    digits, a single space between neighbours except for the two spaces
    between the 8th and the 9th group ([gap]), and nothing after the 16th
    group of a full row.  The call returns on every input that keeps the
    two indices in their ranges; whenever it returns, the rows it has
    written are laid out so; and so are, after any number of iterations of
    its loop, the rows written by then, on an input of any length. *)
Theorem gen_hexdump_rows_laid_out (s : str) (st : state) :
  (int_index s -> u32_index s -> exists st', gen_hexdump s st = Some st')
  /\ (forall st',
        gen_hexdump s st = Some st' ->
        exists new, ofs st' = ofs st ++ new /\ Forall laid_out new)
  /\ (forall k st1 l1,
        iterations k s 0 st (fresh_row (gLinePrefix st)) = Some (st1, l1) ->
        exists new, ofs st1 = ofs st ++ new /\ Forall laid_out new).
Proof.
  split; [|split].
  - intros Hi Hu. destruct (hex_line s) eqn:Hacc.
    + eexists. now apply gen_hexdump_in_range.
    + eexists. now apply gen_hexdump_rejected_in_range.
  - intros st' Hg. destruct (hex_line s) eqn:Hacc.
    + destruct (gen_hexdump_some_state s st st' Hacc Hg) as (_ & Ho & _).
      cbv zeta in Ho. eexists. split; [exact Ho|].
      pose proof (xdigits_lxdigit s) as Hd.
      apply Forall_app. split.
      * apply full_rows_laid_out; [lia | exact Hd].
      * apply short_row_laid_out;
          [apply leftover_length | now apply leftover_lxdigit].
    + apply gen_hexdump_some in Hg. rewrite Hacc in Hg. subst st'.
      exists []. split; [cbn; now rewrite app_nil_r | constructor].
  - intros k st1 l1 Hk. apply iterations_scan in Hk as (t & Ht).
    destruct (scan_rows_laid_out t st) as (new & Ho & Hl).
    rewrite <- Ht in Ho. now exists new.
Qed.

Lemma gen_hexdump_rows_laid_out_witness :
  exists st',
    gen_hexdump (lit "c2 ef 0a 00 00 91 88 43 e1 38") init = Some st'
    /\ exists new, ofs st' = ofs init ++ new /\ Forall laid_out new.
Proof.
  destruct (gen_hexdump_rows_laid_out
              (lit "c2 ef 0a 00 00 91 88 43 e1 38") init) as (H1 & H2 & _).
  destruct H1 as (st' & Hg); [in_range | in_range |].
  exists st'. split; [exact Hg | exact (H2 st' Hg)].
Defined.

(** The layout on a row of ten bytes. *)
Example join_groups_ten_bytes :
  join_groups 0 (pairs (lit "2640000000000103030a"))
  = lit "26 40 00 00 00 00 01 03  03 0a".
Proof. reflexivity. Qed.

(** ** Claim C4 *)

Lemma isxdigit_not_isspace (c : ascii) : isxdigit c = true -> isspace c = false.
Proof. each_char c; cbv; congruence. Qed.

Lemma strip_sep (k : nat) : filter (fun c => negb (isspace c)) (sep k) = [].
Proof.
  unfold sep. destruct (k =? 16)%nat; [reflexivity|].
  now destruct (k =? 8)%nat.
Qed.

Lemma strip_groups (ds : str) (j : nat) :
  Forall lxdigit ds ->
  filter (fun c => negb (isspace c)) (groups j ds) = ds.
Proof.
  revert j. induction ds as [|a|a b l IH] using pair_ind; intros j Hd.
  - reflexivity.
  - inversion Hd as [|? ? [Ha _] _]; subst. cbn.
    now rewrite (isxdigit_not_isspace a Ha).
  - inversion Hd as [|? ? [Ha _] Hd']; subst.
    inversion Hd' as [|? ? [Hb _] Hl]; subst.
    cbn [groups filter].
    rewrite (isxdigit_not_isspace a Ha), (isxdigit_not_isspace b Hb).
    cbn [negb]. now rewrite filter_app, strip_sep, IH.
Qed.

Lemma strip_row_row (g : Z) (ds : str) :
  0 <= g < 2 ^ 24 -> Forall lxdigit ds -> strip_row (row g ds) = ds.
Proof.
  intros Hg Hd. unfold strip_row, row.
  rewrite skipn_app, (fmt06x_length_6 g Hg), Nat.sub_diag.
  rewrite skipn_all2 by (rewrite (fmt06x_length_6 g Hg); lia).
  cbn [app skipn filter]. change (isspace SP) with true. cbn [negb].
  now apply strip_groups.
Qed.

Lemma output_digits_full_rows (n : nat) (g : Z) (ds : str) :
  0 <= g -> g + 16 * Z.of_nat n <= 2 ^ 24 ->
  Forall lxdigit ds ->
  output_digits (full_rows n g ds) = firstn (32 * n) ds.
Proof.
  revert g ds. induction n as [|n IH]; intros g ds H0 H1 Hd; [reflexivity|].
  rewrite <- (firstn_skipn 32 ds) in Hd. apply Forall_app in Hd as [Hd1 Hd2].
  cbn [full_rows]. unfold output_digits in *. cbn [flat_map].
  rewrite strip_row_row by (try assumption; lia).
  replace (u32 (g + 16)) with (g + 16) by (unfold u32; lia).
  rewrite IH by (try assumption; lia).
  replace (32 * S n)%nat with (32 + 32 * n)%nat by lia.
  rewrite <- (firstn_skipn 32 (firstn (32 + 32 * n) ds)).
  rewrite firstn_firstn, skipn_firstn_comm.
  replace (Nat.min 32 (32 + 32 * n)) with 32%nat by lia.
  now replace (32 + 32 * n - 32)%nat with (32 * n)%nat by lia.
Qed.

(** C4, as the code has it.  For an input that the classifier accepts and
    that keeps the two indices in their ranges, with fewer than 2^31 - 4
    leading carriage returns and fewer than 2^32 characters, formatted
    while the counter stays below 2^24, so that every offset has six
    digits: the rows the call writes, each without its six-character
    offset and without whitespace, and put one after the other, are the
    hex digits of the input, lowercased, in their order. *)
Theorem gen_hexdump_round_trip (s : str) (st : state) :
  hex_line s = true ->
  int_index s -> u32_index s ->
  0 <= gLinePrefix st ->
  gLinePrefix st + 16 * Z.of_nat (length (xdigits s) / 32) < 2 ^ 24 ->
  exists st' new,
    gen_hexdump s st = Some st' /\
    ofs st' = ofs st ++ new /\
    output_digits new = xdigits s.
Proof.
  intros Hacc Hint Hu32 H0 H1.
  destruct (gen_hexdump_in_range_state s st Hacc Hint Hu32)
    as (st' & Hg & _ & Ho & _).
  cbv zeta in Ho. eexists st', _. split; [exact Hg|]. split; [exact Ho|].
  pose proof (xdigits_lxdigit s) as Hd.
  unfold output_digits. rewrite flat_map_app.
  fold (output_digits (full_rows (length (xdigits s) / 32) (gLinePrefix st)
                         (xdigits s))).
  rewrite output_digits_full_rows by (try assumption; lia).
  assert (Hl : flat_map strip_row
                 (short_row (advance (length (xdigits s) / 32) (gLinePrefix st))
                    (leftover (xdigits s)))
               = leftover (xdigits s)).
  { pose proof (leftover_lxdigit _ Hd) as Hr.
    destruct (leftover (xdigits s)) as [|d r]; [reflexivity|].
    cbn [short_row flat_map]. rewrite app_nil_r. apply strip_row_row.
    - rewrite advance_small by lia. lia.
    - exact Hr. }
  rewrite Hl. symmetry. apply leftover_split.
Qed.

Lemma gen_hexdump_round_trip_witness :
  exists st' new,
    gen_hexdump (lit "C2 EF 0a-00:9") init = Some st' /\
    ofs st' = ofs init ++ new /\
    output_digits new = lit "c2ef0a009".
Proof.
  apply (gen_hexdump_round_trip (lit "C2 EF 0a-00:9") init);
    [reflexivity | in_range | in_range | cbn; lia | cbn; lia].
Defined.

(** C4, as the claim has it, fails.  The eight hex digits of the first
    input are not in the output, since the classifier rejects the line,
    which has no blank after its first two digits, and nothing is written.
    After 2^20 lines of 16 bytes the offset has seven digits, so that the
    row of the input [01 23], without its first six characters and without
    whitespace, is [00123].  And the input [01 23] followed by spaces up to
    2^32 characters, or behind 2^31 - 4 carriage returns, is accepted and
    has the digits 0123, but the call does not return: the 32-bit index of
    the loop never reaches the length, and the [int] index of the
    classifier leaves its range. *)
Lemma gen_hexdump_round_trip_rejected :
  (exists st',
     gen_hexdump (lit "c2ef0a00") init = Some st' /\
     output_digits (ofs st') = [] /\
     xdigits (lit "c2ef0a00") = lit "c2ef0a00" /\
     output_digits (ofs st') <> xdigits (lit "c2ef0a00"))
  /\
  (exists st st' new,
     gen_hexdump_seq (repeat zero_line (Z.to_nat (2 ^ 20))) init = Some st /\
     gen_hexdump (lit "01 23") st = Some st' /\
     ofs st' = ofs st ++ new /\
     new = [lit "1000000 01 23 "] /\
     output_digits new = lit "00123" /\
     output_digits new <> xdigits (lit "01 23"))
  /\
  (hex_line (lit "01 23" ++ repeat SP (Z.to_nat (2 ^ 32 - 5))) = true
   /\ xdigits (lit "01 23" ++ repeat SP (Z.to_nat (2 ^ 32 - 5)))
      = xdigits (lit "01 23")
   /\ gen_hexdump (lit "01 23" ++ repeat SP (Z.to_nat (2 ^ 32 - 5))) init
      = None)
  /\
  (hex_line (repeat CR (Z.to_nat (2 ^ 31 - 4)) ++ lit "01 23") = true
   /\ xdigits (repeat CR (Z.to_nat (2 ^ 31 - 4)) ++ lit "01 23")
      = xdigits (lit "01 23")
   /\ gen_hexdump (repeat CR (Z.to_nat (2 ^ 31 - 4)) ++ lit "01 23") init
      = None).
Proof.
  split; [|split; [|split]].
  - eexists. split; [reflexivity|]. repeat split. discriminate.
  - assert (H20 : 0 <= 2 ^ 20) by lia.
    assert (Hid : Z.of_nat (Z.to_nat (2 ^ 20)) = 2 ^ 20) by apply Z2Nat.id, H20.
    destruct (gen_hexdump_seq_zero_lines (Z.to_nat (2 ^ 20)))
      as (st & Hs & Hp & _); [rewrite Hid; clear; lia|].
    rewrite Hid in Hp.
    destruct (gen_hexdump_accepted_state (lit "01 23") st eq_refl)
      as (st' & Hg & _ & Ho & _); [vm_compute; reflexivity|].
    cbv zeta in Ho.
    change (xdigits (lit "01 23")) with (lit "0123") in Ho.
    change (length (lit "0123") / 32)%nat with 0%nat in Ho.
    change (leftover (lit "0123")) with (lit "0123") in Ho.
    change (full_rows 0 (gLinePrefix st) (lit "0123")
            ++ short_row (advance 0 (gLinePrefix st)) (lit "0123"))
      with [row (gLinePrefix st) (lit "0123")] in Ho.
    rewrite Hp in Ho.
    assert (Hr : row (16 * 2 ^ 20) (lit "0123") = lit "1000000 01 23 ")
      by (vm_compute; reflexivity).
    rewrite Hr in Ho.
    exists st, st', [lit "1000000 01 23 "].
    split; [exact Hs|]. split; [exact Hg|]. split; [exact Ho|].
    split; [reflexivity|]. split; [vm_compute; reflexivity|].
    vm_compute. discriminate.
  - apply (gen_hexdump_padded_line (lit "01 23") (Z.to_nat (2 ^ 32 - 5)) init);
      [reflexivity | in_range |].
    rewrite Z2Nat.id by (clear; lia).
    change (Z.of_nat (length (lit "01 23"))) with 5. clear. lia.
  - apply (gen_hexdump_cr_line (lit "01 23") (Z.to_nat (2 ^ 31 - 4)) init);
      [reflexivity | reflexivity |].
    rewrite Z2Nat.id by (clear; lia). unfold INT_MAX. clear. lia.
Qed.

(** ** Claims C9 and C10: the last row *)

Lemma flush_last_fresh_row (g : Z) (st : state) :
  flush_last st (fresh_row g) = st.
Proof.
  pose proof (fmt06x_length g) as H.
  unfold flush_last, fresh_row. cbn [num_hex cidx last_space].
  rewrite length_app. cbn [length Z.eqb negb orb].
  replace (1 <? _) with false; [reflexivity|].
  symmetry. apply Z.ltb_ge. unfold u32. lia.
Qed.

(** C9, as the code has it.  When the digits of an accepted input fill
    whole rows, 32 digits each, and the input keeps the two indices in
    their ranges, with fewer than 2^31 - 4 leading carriage returns and
    fewer than 2^32 characters, the loop ends with a fresh row that holds
    the next offset and its space and nothing else; the final test does
    not write it, and the call has written the full rows only. *)
Theorem gen_hexdump_fresh_row_discarded (s : str) (st : state) (n : nat) :
  hex_line s = true ->
  int_index s -> u32_index s ->
  length (xdigits s) = (32 * n)%nat ->
  exists st1 l1,
    for_loop (S (length s)) s 0 st (fresh_row (gLinePrefix st))
    = Some (st1, l1) /\
    line l1 = fmt06x (gLinePrefix st1) ++ [SP] /\
    flush_last st1 l1 = st1 /\
    gen_hexdump s st = Some st1 /\
    ofs st1 = ofs st ++ full_rows n (gLinePrefix st) (xdigits s).
Proof.
  intros Hacc Hint Hu32 Hlen.
  pose proof (scan_full_rows n (xdigits s) [] st (xdigits_lxdigit s) Hlen) as Hs.
  rewrite app_nil_r, <- scan_xdigits in Hs. cbn [scan] in Hs.
  eexists _, _. split; [rewrite for_loop_scan by exact Hu32; now rewrite Hs|].
  split; [reflexivity|].
  split; [apply flush_last_fresh_row|]. split.
  - unfold gen_hexdump.
    rewrite preprocess_hex_str_int_index, Hacc, for_loop_scan, Hs
      by assumption.
    now rewrite flush_last_fresh_row.
  - apply emit_full_ofs.
Qed.

Lemma gen_hexdump_fresh_row_discarded_witness :
  exists st1 l1,
    for_loop (S (length (lit "00 112233445566778899AABBCCDDEEFF")))
      (lit "00 112233445566778899AABBCCDDEEFF") 0 init
      (fresh_row (gLinePrefix init)) = Some (st1, l1) /\
    line l1 = lit "000010 " /\
    ofs st1 = [lit "000000 00 11 22 33 44 55 66 77  88 99 aa bb cc dd ee ff"].
Proof.
  destruct (gen_hexdump_fresh_row_discarded
              (lit "00 112233445566778899AABBCCDDEEFF") init 1)
    as (st1 & l1 & Hs & Hl & _ & _ & Ho);
    [reflexivity | in_range | in_range | reflexivity |].
  exists st1, l1. split; [exact Hs|].
  vm_compute in Hs. injection Hs as E _.
  split; [rewrite Hl, <- E | rewrite Ho]; reflexivity.
Defined.

(** C9, as the claim has it, fails.  Forty-eight hex digits are a multiple
    of 16: the row that starts after the one full row takes eight bytes,
    so it does not hold the offset alone, and the final test writes it.
    And the indices have their ranges: the 32 digits of [zero_line]
    followed by spaces up to 2^32 characters, or behind 2^31 - 4 carriage
    returns, are accepted and fill one row, but the call does not return
    with that one row written. *)
Lemma gen_hexdump_forty_eight_digits :
  let s := lit "00 112233445566778899aabbccddeeff0001020304050607" in
  (exists st1 l1,
     for_loop (S (length s)) s 0 init (fresh_row (gLinePrefix init))
     = Some (st1, l1)
     /\ hex_line s = true
     /\ length (xdigits s) = (16 * 3)%nat
     /\ line l1 = lit "000010 00 01 02 03 04 05 06 07  "
     /\ line l1 <> fmt06x (gLinePrefix st1) ++ [SP]
     /\ flush_last st1 l1 <> st1
     /\ option_map ofs (gen_hexdump s init)
        = Some [lit "000000 00 11 22 33 44 55 66 77  88 99 aa bb cc dd ee ff";
                lit "000010 00 01 02 03 04 05 06 07  "])
  /\ (hex_line (zero_line ++ repeat SP (Z.to_nat (2 ^ 32 - 47))) = true
      /\ xdigits (zero_line ++ repeat SP (Z.to_nat (2 ^ 32 - 47)))
         = xdigits zero_line
      /\ gen_hexdump (zero_line ++ repeat SP (Z.to_nat (2 ^ 32 - 47))) init
         = None)
  /\ (hex_line (repeat CR (Z.to_nat (2 ^ 31 - 4)) ++ zero_line) = true
      /\ xdigits (repeat CR (Z.to_nat (2 ^ 31 - 4)) ++ zero_line)
         = xdigits zero_line
      /\ gen_hexdump (repeat CR (Z.to_nat (2 ^ 31 - 4)) ++ zero_line) init
         = None).
Proof.
  intros s. split; [|split].
  - destruct (for_loop (S (length s)) s 0 init (fresh_row (gLinePrefix init)))
      as [[st1 l1]|] eqn:E; [|vm_compute in E; discriminate].
    exists st1, l1. split; [reflexivity|].
    vm_compute in E. injection E as <- <-.
    split; [vm_compute; reflexivity|]. split; [vm_compute; reflexivity|].
    split; [vm_compute; reflexivity|]. split; [vm_compute; discriminate|].
    split; [vm_compute; discriminate|]. vm_compute; reflexivity.
  - apply (gen_hexdump_padded_line zero_line (Z.to_nat (2 ^ 32 - 47)) init);
      [reflexivity | in_range |].
    rewrite Z2Nat.id by (clear; lia).
    change (Z.of_nat (length zero_line)) with 47. clear. lia.
  - apply (gen_hexdump_cr_line zero_line (Z.to_nat (2 ^ 31 - 4)) init);
      [reflexivity | reflexivity |].
    rewrite Z2Nat.id by (clear; lia). unfold INT_MAX. clear. lia.
Qed.

Lemma row_even_ends_with_space (g : Z) (r : str) :
  (length r mod 2 = 0)%nat -> (length r < 32)%nat ->
  exists head, row g r = head ++ [SP] /\ (r = [] -> head = fmt06x g).
Proof.
  intros He Hl. destruct r as [|c r0] using rev_ind.
  - exists (fmt06x g). now split.
  - clear IHr0. rewrite length_app in He, Hl. cbn [length] in He, Hl.
    rewrite row_snoc.
    replace (length r0 mod 2 =? 1)%nat with true
      by (symmetry; apply Nat.eqb_eq; lia).
    unfold sep.
    replace ((length r0 + 1) / 2 =? 16)%nat with false
      by (symmetry; apply Nat.eqb_neq; lia).
    destruct ((length r0 + 1) / 2 =? 8)%nat.
    + exists (row g r0 ++ [c; SP]). split.
      * now rewrite <- !app_assoc.
      * intros E. now destruct r0.
    + exists (row g r0 ++ [c]). split.
      * now rewrite <- !app_assoc.
      * intros E. now destruct r0.
Qed.

(** C10, as the code has it.  When an accepted input has an odd number of
    hex digits and keeps the two indices in their ranges, with fewer than
    2^31 - 4 leading carriage returns and fewer than 2^32 characters, the
    last row written ends with a space and the last digit [d] of the
    input, a group of one character; and when [d] is the only digit of
    that row, the row, which is the offset, a space and [d], is written
    all the same. *)
Theorem gen_hexdump_odd_digits (s : str) (st : state) :
  hex_line s = true ->
  int_index s -> u32_index s ->
  (length (xdigits s) mod 2 = 1)%nat ->
  exists st' before head d,
    gen_hexdump s st = Some st' /\
    ofs st' = ofs st ++ before ++ [head ++ [SP; d]] /\
    (exists ds', xdigits s = ds' ++ [d]) /\
    (length (leftover (xdigits s)) = 1%nat ->
     head = fmt06x (gLinePrefix st')).
Proof.
  intros Hacc Hint Hu32 Hodd.
  destruct (gen_hexdump_in_range_state s st Hacc Hint Hu32)
    as (st' & Hg & Hp & Ho & _).
  cbv zeta in Hp, Ho.
  pose proof (leftover_length (xdigits s)) as Hlt.
  pose proof (leftover_split (xdigits s)) as Hsplit.
  assert (Hlo : (length (leftover (xdigits s)) mod 2 = 1)%nat).
  { unfold leftover. rewrite length_skipn. lia. }
  destruct (leftover (xdigits s)) as [|d r0] using rev_ind;
    [cbn in Hlo; discriminate|]. clear IHr0.
  rewrite length_app in Hlo, Hlt. cbn [length] in Hlo, Hlt.
  destruct (row_even_ends_with_space (gLinePrefix st') r0)
    as (head & Hrow & Hnil); [lia | lia |].
  exists st', (full_rows (length (xdigits s) / 32) (gLinePrefix st) (xdigits s)),
    head, d.
  split; [exact Hg|]. split; [|split].
  - rewrite Ho. do 2 f_equal. rewrite <- Hp.
    assert (Hne : r0 ++ [d] <> []) by (now destruct r0).
    unfold short_row. destruct (r0 ++ [d]) as [|x y] eqn:E; [contradiction|].
    rewrite <- E, row_snoc, Hrow.
    replace (length r0 mod 2 =? 1)%nat with false
      by (symmetry; apply Nat.eqb_neq; lia).
    now rewrite app_nil_r, <- app_assoc.
  - eexists. rewrite Hsplit at 1. now rewrite app_assoc.
  - rewrite length_app. cbn [length]. intros H1. apply Hnil.
    destruct r0; [reflexivity | cbn [length] in H1; lia].
Qed.

Lemma gen_hexdump_odd_digits_witness :
  exists st' before head d,
    gen_hexdump (lit "00 112233445566778899AABBCCDDEEFF7") init = Some st' /\
    ofs st' = ofs init ++ before ++ [head ++ [SP; d]] /\
    (exists ds', xdigits (lit "00 112233445566778899AABBCCDDEEFF7")
                 = ds' ++ [d]) /\
    (length (leftover (xdigits (lit "00 112233445566778899AABBCCDDEEFF7")))
     = 1%nat -> head = fmt06x (gLinePrefix st')).
Proof.
  apply (gen_hexdump_odd_digits
           (lit "00 112233445566778899AABBCCDDEEFF7") init);
    [reflexivity | in_range | in_range | reflexivity].
Defined.

(** C10, as the claim has it, fails where the indices leave their ranges.
    The input [01 23 4] has five hex digits; followed by spaces up to 2^32
    characters, or behind 2^31 - 4 carriage returns, it is accepted and
    has the same digits, but the call does not return, so that no last
    row ends with the digit 4: the 32-bit index of the loop never reaches
    the length, and the [int] index of the classifier overflows. *)
Lemma gen_hexdump_odd_digits_out_of_range :
  length (xdigits (lit "01 23 4")) = 5%nat
  /\ (hex_line (lit "01 23 4" ++ repeat SP (Z.to_nat (2 ^ 32 - 7))) = true
      /\ xdigits (lit "01 23 4" ++ repeat SP (Z.to_nat (2 ^ 32 - 7)))
         = xdigits (lit "01 23 4")
      /\ gen_hexdump (lit "01 23 4" ++ repeat SP (Z.to_nat (2 ^ 32 - 7))) init
         = None)
  /\ (hex_line (repeat CR (Z.to_nat (2 ^ 31 - 4)) ++ lit "01 23 4") = true
      /\ xdigits (repeat CR (Z.to_nat (2 ^ 31 - 4)) ++ lit "01 23 4")
         = xdigits (lit "01 23 4")
      /\ gen_hexdump (repeat CR (Z.to_nat (2 ^ 31 - 4)) ++ lit "01 23 4") init
         = None).
Proof.
  split; [reflexivity|]. split.
  - apply (gen_hexdump_padded_line (lit "01 23 4") (Z.to_nat (2 ^ 32 - 7))
             init); [reflexivity | in_range |].
    rewrite Z2Nat.id by (clear; lia).
    change (Z.of_nat (length (lit "01 23 4"))) with 7. clear. lia.
  - apply (gen_hexdump_cr_line (lit "01 23 4") (Z.to_nat (2 ^ 31 - 4)) init);
      [reflexivity | reflexivity |].
    rewrite Z2Nat.id by (clear; lia). unfold INT_MAX. clear. lia.
Qed.

(** The row of the dangling digit on that input. *)
Example gen_hexdump_dangling_digit :
  option_map ofs (gen_hexdump (lit "00 112233445566778899AABBCCDDEEFF7") init)
  = Some [lit "000000 00 11 22 33 44 55 66 77  88 99 aa bb cc dd ee ff";
          lit "000010 7"].
Proof. reflexivity. Qed.

(** ** Claim C7: the example of the header comment *)

(** C7. The code does not format the example of its header comment, which
    says that the input, 74 bytes on three lines that begin [c2ef0a00],
    will be formatted into the five rows of the sample.  The third
    character of the input is a hex digit and not a blank, so the
    classifier rejects it, and nothing at all is written for it, be it
    passed as one string or line by line. *)
Theorem gen_hexdump_header_example_rejected :
  joined header_example_lines = header_example
  /\ length header_example_lines = 3%nat
  /\ length (xdigits header_example) = (2 * 74)%nat
  /\ length sample_output = 5%nat
  /\ hex_line header_example = false
  /\ option_map ofs (gen_hexdump header_example init) = Some []
  /\ option_map ofs (gen_hexdump_seq header_example_lines init) = Some []
  /\ option_map ofs (gen_hexdump header_example init) <> Some sample_output.
Proof.
  assert (H : option_map ofs (gen_hexdump header_example init) = Some [])
    by (vm_compute; reflexivity).
  split; [vm_compute; reflexivity|]. split; [vm_compute; reflexivity|].
  split; [vm_compute; reflexivity|]. split; [vm_compute; reflexivity|].
  split; [vm_compute; reflexivity|]. split; [exact H|].
  split; [vm_compute; reflexivity|].
  rewrite H. discriminate.
Qed.

(** What separates the example from the sample is one blank.  Once a blank
    follows the first byte of the example, the formatter writes the five
    rows of the sample: four full rows, byte for byte, and the short row of
    the last ten bytes, [26 40 00 00 00 00 01 03  03 07], which is followed
    by the one space that separates bytes and is not padded any further. *)
Example gen_hexdump_header_example_spaced :
  xdigits header_example_spaced = xdigits header_example
  /\ option_map ofs (gen_hexdump header_example_spaced init)
     = Some (firstn 4 sample_output ++ [nth 4 sample_output [] ++ [SP]])
  /\ option_map (fun st => last (hist st) Reset)
       (gen_hexdump header_example_spaced init)
     = Some (Flush 10 (lit "000040 26 40 00 00 00 00 01 03  03 07 ")).
Proof.
  split; [vm_compute; reflexivity|]. split; vm_compute; reflexivity.
Qed.

(** ** Claim C2: the offsets over a sequence of calls *)

Lemma offsets_from_app (h1 h2 : list event) (c : nat) :
  offsets_from c (h1 ++ h2)
  <-> offsets_from c h1 /\ offsets_from (fold_left count_event h1 c) h2.
Proof.
  revert c. induction h1 as [|e h1 IH]; intros c; cbn [app offsets_from fold_left].
  - tauto.
  - rewrite IH. tauto.
Qed.

Lemma u32_next (c : nat) :
  u32 (u32 (16 * Z.of_nat c) + 16) = u32 (16 * Z.of_nat (S c)).
Proof.
  unfold u32. rewrite Zplus_mod_idemp_l. f_equal. lia.
Qed.

Lemma u32_range (z : Z) : 0 <= u32 z < 2 ^ 32.
Proof. unfold u32. apply Z.mod_pos_bound. lia. Qed.

Lemma offsets_full_rows (n c : nat) (ds : str) :
  (32 * n <= length ds)%nat ->
  offsets_from c (map (Flush 16) (full_rows n (u32 (16 * Z.of_nat c)) ds)).
Proof.
  revert c ds. induction n as [|n IH]; intros c ds Hl;
    cbn [full_rows map offsets_from].
  - exact I.
  - assert (Hf : length (firstn 32 ds) = 32%nat) by (rewrite length_firstn; lia).
    split.
    + eexists. split; [reflexivity|]. rewrite Hf. split; [reflexivity | lia].
    + cbn [count_event Z.eqb Pos.eqb]. rewrite u32_next. apply IH.
      rewrite length_skipn. lia.
Qed.

Lemma count_full_rows (n c : nat) (g : Z) (ds : str) :
  fold_left count_event (map (Flush 16) (full_rows n g ds)) c = (c + n)%nat.
Proof.
  revert c g ds. induction n as [|n IH]; intros c g ds;
    cbn [full_rows map fold_left]; [lia|].
  cbn [count_event Z.eqb Pos.eqb]. rewrite IH. lia.
Qed.

Lemma count_short_row (c : nat) (g : Z) (r : str) :
  (length r < 32)%nat ->
  fold_left count_event
    (map (Flush (Z.of_nat (length r / 2))) (short_row g r)) c = c.
Proof.
  intros H. destruct r as [|d r]; [reflexivity|].
  cbn [short_row map fold_left count_event].
  destruct (Z.eqb_spec (Z.of_nat (length (d :: r) / 2)) 16); [lia|reflexivity].
Qed.

Lemma flushed_app (h1 h2 : list event) : flushed (h1 ++ h2) = flushed h1 ++ flushed h2.
Proof. apply flat_map_app. Qed.

Lemma flushed_rows (n : Z) (rows : list str) : flushed (map (Flush n) rows) = rows.
Proof.
  induction rows as [|r rows IH]; [reflexivity|].
  cbn [map]. change (flushed (Flush n r :: map (Flush n) rows))
    with (r :: flushed (map (Flush n) rows)). now rewrite IH.
Qed.

Lemma consistent_init : consistent init.
Proof. split; [reflexivity | exact I | reflexivity]. Qed.

(** A call keeps the state consistent with its history. *)
Lemma gen_hexdump_consistent (s : str) (st st' : state) :
  consistent st -> gen_hexdump s st = Some st' -> consistent st'.
Proof.
  intros [Hp Ho Hf] Hg. destruct (hex_line s) eqn:Hacc.
  - destruct (gen_hexdump_some_state s st st' Hacc Hg) as (Hp1 & Ho1 & Hh1).
    cbv zeta in Hp1, Ho1, Hh1.
    set (n := (length (xdigits s) / 32)%nat) in *.
    set (c := rows_since_reset (hist st)) in *.
    pose proof (leftover_length (xdigits s)) as Hlt.
    assert (Hadv : advance n (gLinePrefix st) = u32 (16 * Z.of_nat (c + n))).
    { rewrite Hp, advance_u32 by apply u32_range. unfold u32.
      rewrite Zplus_mod_idemp_l. f_equal. lia. }
    assert (Hcount : rows_since_reset (hist st') = (c + n)%nat).
    { unfold rows_since_reset. rewrite Hh1, !fold_left_app.
      fold (rows_since_reset (hist st)). fold c.
      now rewrite count_full_rows, count_short_row. }
    split.
    + now rewrite Hp1, Hcount.
    + rewrite Hh1. apply offsets_from_app. split; [exact Ho|].
      fold (rows_since_reset (hist st)). fold c.
      apply offsets_from_app. split.
      * rewrite Hp. apply offsets_full_rows. subst n. lia.
      * rewrite count_full_rows, Hadv.
        destruct (leftover (xdigits s)) as [|d r0];
          cbn [short_row map offsets_from]; [exact I|].
        split; [|exact I]. eexists. split; [reflexivity|].
        split; [reflexivity|]. cbn [length] in *. lia.
    + rewrite Ho1, Hh1, !flushed_app, !flushed_rows. now rewrite Hf.
  - apply gen_hexdump_some in Hg. rewrite Hacc in Hg. subst st'.
    unfold reset_prefix. split; cbn [gLinePrefix ofs hist].
    + unfold rows_since_reset. now rewrite fold_left_app.
    + apply offsets_from_app. split; [exact Ho|]. cbn. tauto.
    + rewrite flushed_app. cbn. now rewrite app_nil_r.
Qed.

(** A call on fewer than 2^31 characters returns. *)
Lemma gen_hexdump_total (s : str) (st : state) :
  small s -> exists st', gen_hexdump s st = Some st'.
Proof.
  intros Hs. destruct (hex_line s) eqn:Hacc.
  - eexists. now apply gen_hexdump_accepted.
  - eexists. now apply gen_hexdump_rejected.
Qed.

Lemma gen_hexdump_seq_total (inputs : list str) (st : state) :
  Forall small inputs -> exists st', gen_hexdump_seq inputs st = Some st'.
Proof.
  intros H. revert st.
  induction H as [|s inputs Hs _ IH]; intros st; cbn [gen_hexdump_seq].
  - now eexists.
  - destruct (gen_hexdump_total s st Hs) as (st1 & ->). apply IH.
Qed.

Lemma gen_hexdump_seq_consistent (inputs : list str) (st st' : state) :
  consistent st -> gen_hexdump_seq inputs st = Some st' -> consistent st'.
Proof.
  revert st. induction inputs as [|s inputs IH]; intros st Hc Hs;
    cbn [gen_hexdump_seq] in Hs.
  - now injection Hs as <-.
  - destruct (gen_hexdump s st) as [st1|] eqn:E; [|discriminate].
    apply (IH st1); [|exact Hs]. now apply (gen_hexdump_consistent s st).
Qed.




(** ** Claim C8: a file that cannot be opened *)

(** C8, as the code has it.  When the file cannot be opened, both readers
    write the message "Unable to open file", the path and a newline to
    standard output, and nothing to standard error or to the output file;
    [read_hex_str] returns 0 and leaves its string as it was, and
    [read_hex_gen_dump] returns false. *)
Theorem readers_open_failure
    (fs : str -> option (list str)) (fname hex_str : str) (w : world) :
  fs fname = None ->
  let w' := report_open_failure fname w in
  read_hex_str fs fname hex_str w = (0, hex_str, w') /\
  read_hex_gen_dump fs fname w = Some (false, w') /\
  cout w' = cout w ++ lit "Unable to open file" ++ fname ++ [LF] /\
  cerr w' = cerr w /\
  fmt w' = fmt w.
Proof.
  intros H w'. unfold read_hex_str, read_hex_gen_dump. rewrite H.
  repeat split.
Qed.

Lemma readers_open_failure_witness :
  let fs := fun _ : str => @None (list str) in
  let w' := report_open_failure (lit "missing.txt") world0 in
  read_hex_str fs (lit "missing.txt") (lit "ab") world0 = (0, lit "ab", w') /\
  read_hex_gen_dump fs (lit "missing.txt") world0 = Some (false, w') /\
  cout w' = cout world0 ++ lit "Unable to open file" ++ lit "missing.txt" ++ [LF] /\
  cerr w' = cerr world0 /\
  fmt w' = fmt world0.
Proof.
  intros fs. apply (readers_open_failure fs (lit "missing.txt") (lit "ab") world0).
  reflexivity.
Defined.

(** C8, as the claim has it, fails: with no file to open, neither reader
    writes anything to standard error, which stays empty; the message
    goes to standard output. *)
Lemma readers_do_not_write_to_cerr :
  let fs := fun _ : str => @None (list str) in
  cerr (snd (read_hex_str fs (lit "missing.txt") [] world0)) = []
  /\ option_map (fun r => cerr (snd r))
       (read_hex_gen_dump fs (lit "missing.txt") world0) = Some []
  /\ cout (snd (read_hex_str fs (lit "missing.txt") [] world0))
     = lit "Unable to open filemissing.txt" ++ [LF]
  /\ option_map (fun r => cout (snd r))
       (read_hex_gen_dump fs (lit "missing.txt") world0)
     = Some (lit "Unable to open filemissing.txt" ++ [LF]).
Proof. intros fs. repeat split. Qed.

(** * Further properties of the code *)

(** ** The classifier *)

(** X1. Carriage returns at the start of a line do not count, as long as
    the line has fewer than 2^31 characters: the classifier returns on the
    line what it returns on the line without them. *)
Theorem preprocess_hex_str_leading_cr (n : nat) (s : str) (st : state) :
  small (repeat CR n ++ s) ->
  preprocess_hex_str (repeat CR n ++ s) st = preprocess_hex_str s st.
Proof.
  intros H.
  assert (Hs : small s).
  { unfold small in *. rewrite length_app in H. lia. }
  rewrite !preprocess_hex_str_spec by assumption.
  unfold hex_line. now rewrite drop_cr_repeat.
Qed.

Lemma preprocess_hex_str_leading_cr_witness :
  preprocess_hex_str (repeat CR 3 ++ lit "0a 1b") init
  = preprocess_hex_str (lit "0a 1b") init.
Proof.
  apply (preprocess_hex_str_leading_cr 3 (lit "0a 1b") init).
  vm_compute. reflexivity.
Defined.

(** X2. The classifier looks at five characters only: what follows them on
    the line changes nothing. *)
Theorem preprocess_hex_str_first_five (s t : str) (st : state) :
  (5 <= length (drop_cr s))%nat ->
  preprocess_hex_str (s ++ t) st = preprocess_hex_str s st.
Proof. apply preprocess_hex_str_app. Qed.

Lemma preprocess_hex_str_first_five_witness :
  preprocess_hex_str (lit "0a 1b" ++ lit " and more") init
  = preprocess_hex_str (lit "0a 1b") init.
Proof.
  apply (preprocess_hex_str_first_five (lit "0a 1b") (lit " and more") init).
  cbn. lia.
Defined.

(** X3. Only carriage returns are skipped at the start of a line: behind
    fewer than 2^31 of them, a line whose first other character is not a
    hex digit, a space or a tab for one, is rejected, and the counter is
    reset. *)
Theorem preprocess_hex_str_first_not_hex
    (n : nat) (c : ascii) (s : str) (st : state) :
  Z.of_nat n < 2 ^ 31 ->
  isxdigit c = false -> c <> CR ->
  preprocess_hex_str (repeat CR n ++ c :: s) st = Some (false, reset_prefix st).
Proof.
  intros Hn Hc Hcr. rewrite preprocess_hex_str_unfold, drop_cr_repeat.
  cbn [drop_cr].
  destruct (Ascii.eqb_spec c CR) as [E|E]; [contradiction|].
  rewrite length_app, repeat_length.
  replace (n + length (c :: s) - length (c :: s))%nat with n by lia.
  rewrite int_add_small by (unfold INT_MAX; lia). cbn [Nat.add].
  unfold pattern_after. cbn [str_at nth_error option_map]. rewrite Hc.
  reflexivity.
Qed.

Lemma preprocess_hex_str_first_not_hex_witness :
  preprocess_hex_str (repeat CR 2 ++ SP :: lit "0a 1b 2c") init
  = Some (false, reset_prefix init).
Proof.
  apply (preprocess_hex_str_first_not_hex 2 SP (lit "0a 1b 2c") init);
    [lia | reflexivity | discriminate].
Defined.

(** ** The formatter *)

(** An accepted line has hex digits. *)
Lemma hex_line_xdigits (s : str) : hex_line s = true -> xdigits s <> [].
Proof.
  intros H. destruct (drop_cr_suffix s) as (pre & Hs & _).
  unfold hex_line in H. rewrite Hs, xdigits_app.
  destruct (drop_cr s) as [|c0 [|c1 [|c2 [|c3 [|c4 r]]]]]; try discriminate.
  destruct (isxdigit c0) eqn:E0; [|discriminate].
  unfold xdigits at 2. cbn [filter]. rewrite E0. cbn [map].
  intros E. apply app_eq_nil in E as [_ E]. discriminate.
Qed.

(** X4. The formatter sees the hex digits of an accepted input and nothing
    else: two accepted inputs of fewer than 2^31 characters each with the
    same digits, whatever separates them and whatever their case, are
    formatted alike. *)
Theorem gen_hexdump_digits_only (s t : str) (st : state) :
  hex_line s = true -> hex_line t = true ->
  small s -> small t ->
  xdigits s = xdigits t ->
  gen_hexdump s st = gen_hexdump t st.
Proof.
  intros Hs Ht Ss St E. rewrite !gen_hexdump_accepted by assumption.
  now rewrite E.
Qed.

Lemma gen_hexdump_digits_only_witness :
  gen_hexdump (lit "C2 EF:0A-00") init = gen_hexdump (lit "c2 ef0a00") init.
Proof.
  apply (gen_hexdump_digits_only (lit "C2 EF:0A-00") (lit "c2 ef0a00") init);
    vm_compute; reflexivity.
Defined.

(** X26. An accepted input makes the call return exactly when it keeps the
    two indices in their ranges: fewer than 2^31 - 4 leading carriage
    returns, so that the [i + 4] of the classifier is an [int], and fewer
    than 2^32 characters, so that the 32-bit index of the loop reaches the
    length. *)
Theorem gen_hexdump_returns_iff (s : str) (st : state) :
  hex_line s = true ->
  (exists st', gen_hexdump s st = Some st')
  <-> Z.of_nat (leading_cr s) + 4 <= INT_MAX /\ Z.of_nat (length s) < 2 ^ 32.
Proof.
  intros H. split.
  - intros (st' & Hg).
    assert (Hp : preprocess_hex_str s st <> None).
    { intros E. unfold gen_hexdump in Hg. rewrite E in Hg. discriminate. }
    split; [now apply (preprocess_hex_str_pattern_range s st)|].
    destruct (Z_lt_le_dec (Z.of_nat (length s)) (2 ^ 32)) as [Hl|Hl];
      [exact Hl|].
    destruct (preprocess_hex_str s st) as [r|] eqn:E; [|contradiction].
    pose proof (preprocess_hex_str_some s st r E) as Hr. rewrite H in Hr.
    subst r. rewrite (gen_hexdump_never_returns s st E Hl) in Hg.
    discriminate.
  - intros [Hi Hu]. eexists. apply gen_hexdump_in_range; [exact H | | exact Hu].
    unfold int_index. lia.
Qed.

Lemma gen_hexdump_returns_iff_witness :
  (exists st', gen_hexdump (lit "0a 0b") init = Some st')
  <-> Z.of_nat (leading_cr (lit "0a 0b")) + 4 <= INT_MAX
      /\ Z.of_nat (length (lit "0a 0b")) < 2 ^ 32.
Proof.
  apply (gen_hexdump_returns_iff (lit "0a 0b") init). reflexivity.
Defined.

Lemma sep_row_char (k : nat) : Forall row_char (sep k).
Proof.
  unfold sep. destruct (k =? 16)%nat; [constructor|].
  destruct (k =? 8)%nat; repeat constructor; now right.
Qed.

Lemma groups_row_char (ds : str) (j : nat) :
  Forall lxdigit ds -> Forall row_char (groups j ds).
Proof.
  revert j. induction ds as [|a|a b l IH] using pair_ind; intros j Hd.
  - constructor.
  - inversion Hd; subst. constructor; [now left | constructor].
  - inversion Hd as [|? ? Ha Hd']; subst. inversion Hd' as [|? ? Hb Hl]; subst.
    cbn [groups]. constructor; [now left|]. constructor; [now left|].
    apply Forall_app. split; [apply sep_row_char | now apply IH].
Qed.

Lemma row_row_char (g : Z) (ds : str) :
  Forall lxdigit ds -> Forall row_char (row g ds).
Proof.
  intros Hd. unfold row. apply Forall_app. split.
  - eapply Forall_impl; [|apply fmt06x_lxdigit]. intros c Hc. now left.
  - constructor; [now right|]. now apply groups_row_char.
Qed.

Lemma full_rows_forall (P : str -> Prop) (n : nat) (g : Z) (ds : str) :
  (forall g' i, (i < n)%nat -> P (row g' (chunk i ds))) ->
  Forall P (full_rows n g ds).
Proof.
  revert g ds. induction n as [|n IH]; intros g ds H; cbn [full_rows];
    constructor.
  - apply (H g 0%nat). lia.
  - apply IH. intros g' i Hi. rewrite <- chunk_succ. apply H. lia.
Qed.

Lemma chunk_lxdigit (i : nat) (ds : str) :
  Forall lxdigit ds -> Forall lxdigit (chunk i ds).
Proof.
  intros H. unfold chunk.
  rewrite <- (firstn_skipn (32 * i) ds) in H. apply Forall_app in H as [_ H].
  rewrite <- (firstn_skipn 32 (skipn (32 * i) ds)) in H.
  now apply Forall_app in H.
Qed.

(** X5. The rows that a call on fewer than 2^31 characters writes hold
    lowercase hex digits and spaces and nothing else: no capital letter,
    no tab, no character of the input that is not a hex digit. *)
Theorem gen_hexdump_row_characters (s : str) (st : state) :
  small s ->
  exists st' new,
    gen_hexdump s st = Some st' /\
    ofs st' = ofs st ++ new /\
    Forall (Forall row_char) new.
Proof.
  intros Hsmall. destruct (hex_line s) eqn:Hacc.
  - destruct (gen_hexdump_accepted_state s st Hacc Hsmall)
      as (st' & Hg & _ & Ho & _).
    cbv zeta in Ho. eexists st', _. split; [exact Hg|]. split; [exact Ho|].
    pose proof (xdigits_lxdigit s) as Hd.
    apply Forall_app. split.
    + apply full_rows_forall. intros g' i _.
      now apply row_row_char, chunk_lxdigit.
    + pose proof (leftover_lxdigit _ Hd) as Hr.
      destruct (leftover (xdigits s)); constructor; [|constructor].
      now apply row_row_char.
  - exists (reset_prefix st), []. split; [now apply gen_hexdump_rejected|].
    split; [cbn; now rewrite app_nil_r | constructor].
Qed.

Lemma gen_hexdump_row_characters_witness :
  exists st' new,
    gen_hexdump (lit "C2 EF:0A-00") init = Some st' /\
    ofs st' = ofs init ++ new /\
    Forall (Forall row_char) new.
Proof.
  apply (gen_hexdump_row_characters (lit "C2 EF:0A-00") init).
  vm_compute. reflexivity.
Defined.

Lemma short_row_length (g : Z) (ds : str) :
  length (short_row g ds) = (if is_empty ds then 0 else 1)%nat.
Proof. now destruct ds. Qed.

(** X6. An accepted call on fewer than 2^31 characters writes one row for
    every 16 bytes and one more for what is left, and it moves the counter
    on by 16 for every full row only: the short last row leaves the
    counter where it is. *)
Theorem gen_hexdump_rows_and_counter (s : str) (st : state) :
  hex_line s = true ->
  small s ->
  0 <= gLinePrefix st < 2 ^ 32 ->
  exists st' new,
    gen_hexdump s st = Some st' /\
    ofs st' = ofs st ++ new /\
    length new = ((length (xdigits s) + 31) / 32)%nat /\
    gLinePrefix st'
    = u32 (gLinePrefix st + 16 * Z.of_nat (length (xdigits s) / 32)).
Proof.
  intros Hacc Hsmall Hg.
  destruct (gen_hexdump_accepted_state s st Hacc Hsmall)
    as (st' & Hr & Hp & Ho & _).
  cbv zeta in Hp, Ho. eexists st', _. split; [exact Hr|]. split; [exact Ho|].
  split.
  - rewrite length_app, full_rows_length, short_row_length.
    pose proof (leftover_length (xdigits s)) as Hlt.
    assert (Hl : length (leftover (xdigits s))
                 = (length (xdigits s) mod 32)%nat).
    { unfold leftover. rewrite length_skipn. lia. }
    destruct (leftover (xdigits s)); cbn [is_empty length] in *; lia.
  - rewrite Hp. now apply advance_u32.
Qed.

Lemma gen_hexdump_rows_and_counter_witness :
  exists st' new,
    gen_hexdump (lit "00 112233445566778899AABBCCDDEEFF 01 02") init = Some st' /\
    ofs st' = ofs init ++ new /\
    length new = 2%nat /\
    gLinePrefix st' = 16.
Proof.
  apply (gen_hexdump_rows_and_counter
           (lit "00 112233445566778899AABBCCDDEEFF 01 02") init);
    [reflexivity | vm_compute; reflexivity | cbn; lia].
Defined.

(** The first row that an accepting call writes. *)
Lemma rows_head (g : Z) (ds : str) :
  ds <> [] ->
  exists rest,
    full_rows (length ds / 32) g ds
    ++ short_row (advance (length ds / 32) g) (leftover ds)
    = row g (firstn 32 ds) :: rest.
Proof.
  intros Hne. unfold leftover. destruct (length ds / 32)%nat as [|n] eqn:E.
  - exists []. cbn [full_rows advance app Nat.mul skipn].
    rewrite firstn_all2 by lia. destruct ds; [contradiction | reflexivity].
  - eexists. cbn [full_rows app]. reflexivity.
Qed.

(** X7. A line that is not hex resets the offsets: the first row of the next
    accepted line starts at offset 000000, wherever the counter was (both
    lines of fewer than 2^31 characters). *)
Theorem gen_hexdump_restart_after_reject (r s : str) (st : state) :
  hex_line r = false -> hex_line s = true ->
  small r -> small s ->
  exists st1 st2 text post,
    gen_hexdump r st = Some st1 /\
    gen_hexdump s st1 = Some st2 /\
    ofs st2 = ofs st ++ (lit "000000 " ++ text) :: post.
Proof.
  intros Hr Hs Sr Ss.
  destruct (gen_hexdump_accepted_state s (reset_prefix st) Hs Ss)
    as (st2 & Hg & _ & Ho & _).
  cbv zeta in Ho. cbn [gLinePrefix ofs reset_prefix] in Ho.
  destruct (rows_head 0 (xdigits s) (hex_line_xdigits s Hs)) as (post & Hh).
  rewrite Hh in Ho.
  exists (reset_prefix st), st2, (groups 0 (firstn 32 (xdigits s))), post.
  split; [now apply gen_hexdump_rejected|]. split; [exact Hg|]. exact Ho.
Qed.

Lemma gen_hexdump_restart_after_reject_witness :
  exists st1 st2 text post,
    gen_hexdump (lit "packet 2:") (mkState 48 [] []) = Some st1 /\
    gen_hexdump (lit "0a 0b") st1 = Some st2 /\
    ofs st2 = ofs (mkState 48 [] []) ++ (lit "000000 " ++ text) :: post.
Proof.
  apply (gen_hexdump_restart_after_reject (lit "packet 2:") (lit "0a 0b")
           (mkState 48 [] [])); vm_compute; reflexivity.
Defined.

(** X8. Two accepted lines of fewer than 2^31 characters each with no reset
    between them: when the first ends in a short row, the second starts
    with the offset of that short row again, so that two rows of the
    output bear the same offset. *)
Theorem gen_hexdump_offset_repeated (a b : str) (st : state) :
  hex_line a = true -> hex_line b = true ->
  small a -> small b ->
  (length (xdigits a) mod 32 <> 0)%nat ->
  exists st1 st2 before texta textb after,
    gen_hexdump a st = Some st1 /\
    gen_hexdump b st1 = Some st2 /\
    ofs st1 = ofs st ++ before ++ [fmt06x (gLinePrefix st1) ++ SP :: texta] /\
    ofs st2 = ofs st1 ++ (fmt06x (gLinePrefix st1) ++ SP :: textb) :: after.
Proof.
  intros Ha Hb Sa Sb Hrem.
  destruct (gen_hexdump_accepted_state a st Ha Sa)
    as (st1 & Hg1 & Hp1 & Ho1 & _).
  destruct (gen_hexdump_accepted_state b st1 Hb Sb)
    as (st2 & Hg2 & _ & Ho2 & _).
  cbv zeta in Hp1, Ho1, Ho2.
  destruct (rows_head (gLinePrefix st1) (xdigits b) (hex_line_xdigits b Hb))
    as (after & Hh).
  rewrite Hh in Ho2.
  assert (Hl : length (leftover (xdigits a)) = (length (xdigits a) mod 32)%nat).
  { unfold leftover. rewrite length_skipn. lia. }
  destruct (leftover (xdigits a)) as [|d r] eqn:E; [cbn [length] in Hl; lia|].
  exists st1, st2, (full_rows (length (xdigits a) / 32) (gLinePrefix st) (xdigits a)),
    (groups 0 (d :: r)), (groups 0 (firstn 32 (xdigits b))), after.
  split; [exact Hg1|]. split; [exact Hg2|]. split; [|exact Ho2].
  rewrite Ho1, Hp1. reflexivity.
Qed.

Lemma gen_hexdump_offset_repeated_witness :
  exists st1 st2 before texta textb after,
    gen_hexdump (lit "00 112233445566778899AABBCCDDEEFF 01 02") init = Some st1 /\
    gen_hexdump (lit "0a 0b") st1 = Some st2 /\
    ofs st1 = ofs init ++ before ++ [fmt06x (gLinePrefix st1) ++ SP :: texta] /\
    ofs st2 = ofs st1 ++ (fmt06x (gLinePrefix st1) ++ SP :: textb) :: after.
Proof.
  apply (gen_hexdump_offset_repeated
           (lit "00 112233445566778899AABBCCDDEEFF 01 02") (lit "0a 0b") init);
    [reflexivity | reflexivity | vm_compute; reflexivity
    | vm_compute; reflexivity | cbn; lia].
Defined.

Lemma emit_full_app (n m : nat) (da db : str) (st : state) :
  length da = (32 * n)%nat ->
  emit_full (n + m) (da ++ db) st = emit_full m db (emit_full n da st).
Proof.
  revert da st. induction n as [|n IH]; intros da st Hl.
  - destruct da; [reflexivity | discriminate].
  - cbn [Nat.add emit_full].
    rewrite firstn_app, skipn_app.
    replace (32 - length da)%nat with 0%nat by lia.
    rewrite firstn_O, skipn_O, app_nil_r.
    apply IH. rewrite length_skipn. lia.
Qed.

Lemma leftover_app (n : nat) (da db : str) :
  length da = (32 * n)%nat -> leftover (da ++ db) = leftover db.
Proof.
  intros Hl. unfold leftover. rewrite length_app, skipn_app.
  replace ((length da + length db) / 32)%nat with (n + length db / 32)%nat
    by lia.
  rewrite skipn_all2 by lia. cbn [app]. f_equal. lia.
Qed.

Lemma small_app (a b : str) : small (a ++ b) -> small a /\ small b.
Proof. unfold small. rewrite length_app. lia. Qed.

Lemma gen_hexdump_at_row_boundary (a b : str) (st : state) (n : nat) :
  hex_line a = true -> hex_line b = true ->
  small (a ++ b) ->
  length (xdigits a) = (32 * n)%nat ->
  gen_hexdump (a ++ b) st
  = match gen_hexdump a st with
    | Some st1 => gen_hexdump b st1
    | None => None
    end.
Proof.
  intros Ha Hb Sab Hl.
  destruct (small_app a b Sab) as [Sa Sb].
  assert (Hab : hex_line (a ++ b) = true).
  { rewrite hex_line_app; [exact Ha | now apply hex_line_length]. }
  rewrite (gen_hexdump_accepted (a ++ b)), (gen_hexdump_accepted a)
    by assumption.
  cbv beta iota. rewrite (gen_hexdump_accepted b) by assumption.
  rewrite xdigits_app, (leftover_app n), (leftover_nil _ n Hl) by assumption.
  cbn [emit_last]. rewrite length_app.
  replace ((length (xdigits a) + length (xdigits b)) / 32)%nat
    with (n + length (xdigits b) / 32)%nat by lia.
  rewrite (emit_full_app n) by assumption.
  now replace (length (xdigits a) / 32)%nat with n by lia.
Qed.

(** X9. Formatting composes at a row boundary: when the first of two
    accepted inputs fills whole rows, and the two have fewer than 2^31
    characters together, formatting the two one after the other as one
    string does what formatting the first and then the second does. *)
Theorem gen_hexdump_app (a b : str) (st : state) (n : nat) :
  hex_line a = true -> hex_line b = true ->
  small (a ++ b) ->
  length (xdigits a) = (32 * n)%nat ->
  gen_hexdump (a ++ b) st
  = match gen_hexdump a st with
    | Some st1 => gen_hexdump b st1
    | None => None
    end.
Proof.
  intros Ha Hb Sab Hl.
  destruct (small_app a b Sab) as [Sa Sb].
  assert (Hab : hex_line (a ++ b) = true).
  { rewrite hex_line_app; [exact Ha | now apply hex_line_length]. }
  rewrite (gen_hexdump_accepted (a ++ b)), (gen_hexdump_accepted a)
    by assumption.
  cbv beta iota. rewrite (gen_hexdump_accepted b) by assumption.
  rewrite xdigits_app, (leftover_app n), (leftover_nil _ n Hl) by assumption.
  cbn [emit_last]. rewrite length_app.
  replace ((length (xdigits a) + length (xdigits b)) / 32)%nat
    with (n + length (xdigits b) / 32)%nat by lia.
  rewrite (emit_full_app n) by assumption.
  now replace (length (xdigits a) / 32)%nat with n by lia.
Qed.

Lemma gen_hexdump_app_witness :
  gen_hexdump (lit "00 112233445566778899AABBCCDDEEFF" ++ lit "0a 0b") init
  = match gen_hexdump (lit "00 112233445566778899AABBCCDDEEFF") init with
    | Some st1 => gen_hexdump (lit "0a 0b") st1
    | None => None
    end.
Proof.
  apply (gen_hexdump_app (lit "00 112233445566778899AABBCCDDEEFF")
           (lit "0a 0b") init 1); vm_compute; reflexivity.
Defined.

(** X10. Over any sequence of calls on inputs of fewer than 2^31 characters
    each, every call returns, and the counter stays a multiple of 16 in
    the range of 32 bits. *)
Theorem gen_hexdump_seq_counter_aligned (inputs : list str) :
  Forall small inputs ->
  exists st',
    gen_hexdump_seq inputs init = Some st' /\
    0 <= gLinePrefix st' < 2 ^ 32 /\
    gLinePrefix st' mod 16 = 0.
Proof.
  intros Hin.
  destruct (gen_hexdump_seq_total inputs init Hin) as (st' & Hs).
  destruct (gen_hexdump_seq_consistent inputs init st' consistent_init Hs)
    as [Hp _ _].
  exists st'. split; [exact Hs|]. rewrite Hp. split; [apply u32_range|].
  unfold u32. lia.
Qed.

Lemma gen_hexdump_seq_counter_aligned_witness :
  exists st',
    gen_hexdump_seq [zero_line; lit "0a 0b"; lit "packet 2:"; zero_line] init
    = Some st' /\
    0 <= gLinePrefix st' < 2 ^ 32 /\
    gLinePrefix st' mod 16 = 0.
Proof.
  apply (gen_hexdump_seq_counter_aligned
           [zero_line; lit "0a 0b"; lit "packet 2:"; zero_line]).
  repeat constructor.
Defined.

Lemma groups_length_tight (ds : str) (j : nat) :
  ((8 <= j -> length (groups j ds) <= length ds + length ds / 2)
   /\ length (groups j ds) <= length ds + length ds / 2 + 1)%nat.
Proof.
  revert j. induction ds as [|a|a b l IH] using pair_ind; intros j.
  - cbn. lia.
  - cbn. lia.
  - destruct (IH (S j)) as [IH8 IH1]. cbn [groups length].
    rewrite length_app. unfold sep.
    replace (S (S (length l)) / 2)%nat with (S (length l / 2)) by lia.
    destruct (Nat.eqb_spec (S j) 16); [cbn [length]; lia|].
    destruct (Nat.eqb_spec (S j) 8) as [E8|E8]; cbn [length].
    + split; [lia|]. specialize (IH8 ltac:(lia)). lia.
    + split; [intros H8; specialize (IH8 ltac:(lia))|]; lia.
Qed.

Lemma groups_length_full (ds : str) :
  length ds = 32%nat -> length (groups 0 ds) = 48%nat.
Proof.
  intros H. do 32 (destruct ds as [|? ds]; [discriminate H|]).
  destruct ds; [reflexivity | discriminate H].
Qed.

Lemma full_rows_forall_below (P : str -> Prop) (n : nat) (g : Z) (ds : str) :
  0 <= g -> g + 16 * Z.of_nat n <= 2 ^ 24 ->
  (forall g' i, 0 <= g' < 2 ^ 24 -> (i < n)%nat -> P (row g' (chunk i ds))) ->
  Forall P (full_rows n g ds).
Proof.
  revert g ds. induction n as [|n IH]; intros g ds H0 H1 H; cbn [full_rows];
    constructor.
  - apply (H g 0%nat); lia.
  - replace (u32 (g + 16)) with (g + 16) by (unfold u32; lia).
    apply IH; try lia. intros g' i Hg Hi. rewrite <- chunk_succ. apply H; lia.
Qed.

(** X11. The width of the output of an accepted call on fewer than 2^31
    characters.  While the counter is below 2^24, every full row has
    exactly 55 characters, and the short row that may end the output of a
    call has between 8 and 54. *)
Theorem gen_hexdump_row_width (s : str) (st : state) :
  hex_line s = true ->
  small s ->
  0 <= gLinePrefix st ->
  gLinePrefix st + 16 * Z.of_nat (length (xdigits s) / 32) < 2 ^ 24 ->
  exists st' full last,
    gen_hexdump s st = Some st' /\
    ofs st' = ofs st ++ full ++ last /\
    length full = (length (xdigits s) / 32)%nat /\
    Forall (fun r => length r = 55%nat) full /\
    (length last <= 1)%nat /\
    Forall (fun r => (8 <= length r <= 54)%nat) last.
Proof.
  intros Hacc Hsmall H0 H1.
  destruct (gen_hexdump_accepted_state s st Hacc Hsmall)
    as (st' & Hg & _ & Ho & _).
  cbv zeta in Ho. eexists st', _, _. split; [exact Hg|]. split; [exact Ho|].
  split; [apply full_rows_length|]. split; [|split].
  - apply full_rows_forall_below; try lia. intros g' i Hg' Hi.
    unfold row. rewrite !length_app, (fmt06x_length_6 g' Hg').
    rewrite groups_length_full; [reflexivity|]. apply chunk_length. lia.
  - destruct (leftover (xdigits s)); cbn; lia.
  - pose proof (leftover_length (xdigits s)) as Hlt.
    destruct (leftover (xdigits s)) as [|d r]; constructor; [|constructor].
    unfold row. rewrite !length_app, fmt06x_length_6
      by (rewrite advance_small by lia; lia).
    destruct (groups_length_tight (d :: r) 0) as [_ Hle].
    assert (1 <= length (groups 0 (d :: r)))%nat
      by (destruct r; cbn [groups length]; lia).
    cbn [length] in *. lia.
Qed.

Lemma gen_hexdump_row_width_witness :
  exists st' full last,
    gen_hexdump (lit "00 112233445566778899AABBCCDDEEFF 01 02") init = Some st' /\
    ofs st' = ofs init ++ full ++ last /\
    length full = 1%nat /\
    Forall (fun r => length r = 55%nat) full /\
    (length last <= 1)%nat /\
    Forall (fun r => (8 <= length r <= 54)%nat) last.
Proof.
  apply (gen_hexdump_row_width
           (lit "00 112233445566778899AABBCCDDEEFF 01 02") init);
    [reflexivity | vm_compute; reflexivity | cbn; lia | cbn; lia].
Defined.

(** ** The readers *)

Lemma fold_joined (lines : list str) (acc : str) :
  fold_left (fun acc l => acc ++ l ++ [LF]) lines acc = acc ++ joined lines.
Proof.
  revert acc. induction lines as [|l lines IH]; intros acc; cbn [fold_left].
  - cbn. now rewrite app_nil_r.
  - rewrite IH. unfold joined. cbn [flat_map]. now rewrite <- !app_assoc.
Qed.

Lemma xdigits_joined (lines : list str) :
  xdigits (joined lines) = flat_map xdigits lines.
Proof.
  induction lines as [|l lines IH]; [reflexivity|].
  unfold joined in *. cbn [flat_map]. rewrite !xdigits_app, IH.
  change (xdigits [LF]) with (@nil ascii). now rewrite app_nil_r.
Qed.

(** X12. The whole-file reader appends to the string it is given: on a file
    that opens, the string becomes what it was, followed by every line of
    the file with a newline after it; the lines bring their hex digits in
    their order and the newlines bring none; the length of the result,
    cut to 32 bits, is returned, and nothing is printed. *)
Theorem read_hex_str_appends
    (fs : str -> option (list str)) (fname acc : str) (lines : list str)
    (w : world) :
  fs fname = Some lines ->
  read_hex_str fs fname acc w
  = (u32 (Z.of_nat (length (acc ++ joined lines))), acc ++ joined lines, w)
  /\ xdigits (acc ++ joined lines) = xdigits acc ++ flat_map xdigits lines.
Proof.
  intros H. unfold read_hex_str. rewrite H, fold_joined.
  split; [reflexivity|]. now rewrite xdigits_app, xdigits_joined.
Qed.

Lemma read_hex_str_appends_witness :
  let fs := fun _ : str => Some [lit "0a 0b"; lit "0c"] in
  read_hex_str fs (lit "in.txt") (lit "ff ") world0
  = (u32 (Z.of_nat (length (lit "ff " ++ joined [lit "0a 0b"; lit "0c"]))),
     lit "ff " ++ joined [lit "0a 0b"; lit "0c"], world0)
  /\ xdigits (lit "ff " ++ joined [lit "0a 0b"; lit "0c"])
     = xdigits (lit "ff ") ++ flat_map xdigits [lit "0a 0b"; lit "0c"].
Proof.
  intros fs.
  apply (read_hex_str_appends fs (lit "in.txt") (lit "ff ")
           [lit "0a 0b"; lit "0c"] world0).
  reflexivity.
Defined.

Lemma each_line_nonempty (lines : list str) (st : state) :
  each_line lines st
  = gen_hexdump_seq (filter (fun l => negb (is_empty l)) lines) st.
Proof.
  revert st. induction lines as [|l lines IH]; intros st; [reflexivity|].
  cbn [each_line filter]. destruct l as [|c l]; cbn [is_empty negb].
  - apply IH.
  - cbn [gen_hexdump_seq]. destruct (gen_hexdump (c :: l) st); [apply IH|reflexivity].
Qed.

(** X13. The line-by-line reader on a file that opens and whose lines have
    fewer than 2^31 characters each: it returns true, prints nothing, and
    leaves the formatter where the calls of [gen_hexdump] on the lines
    that are not empty leave it.  An empty line is passed over without a
    call, so that it does not reset the counter. *)
Theorem read_hex_gen_dump_lines
    (fs : str -> option (list str)) (fin : str) (lines : list str) (w : world) :
  fs fin = Some lines ->
  Forall small lines ->
  exists st',
    gen_hexdump_seq (filter (fun l => negb (is_empty l)) lines) (fmt w)
    = Some st' /\
    read_hex_gen_dump fs fin w = Some (true, mkWorld st' (cout w) (cerr w)).
Proof.
  intros H Hsmall. unfold read_hex_gen_dump. rewrite H, each_line_nonempty.
  destruct (gen_hexdump_seq_total
              (filter (fun l => negb (is_empty l)) lines) (fmt w)) as (st' & Hs).
  { apply Forall_forall. intros l Hl. apply filter_In in Hl as [Hl _].
    revert l Hl. now apply Forall_forall. }
  exists st'. split; [exact Hs|]. now rewrite Hs.
Qed.

Lemma read_hex_gen_dump_lines_witness :
  let fs := fun _ : str => Some [lit "0a 0b"; []; lit "0c 0d"] in
  exists st',
    gen_hexdump_seq
      (filter (fun l => negb (is_empty l)) [lit "0a 0b"; []; lit "0c 0d"])
      (fmt world0) = Some st' /\
    read_hex_gen_dump fs (lit "in.txt") world0
    = Some (true, mkWorld st' (cout world0) (cerr world0)).
Proof.
  intros fs.
  apply (read_hex_gen_dump_lines fs (lit "in.txt")
           [lit "0a 0b"; []; lit "0c 0d"] world0);
    [reflexivity | repeat constructor].
Defined.

Lemma drop_cr_nil_app (s t : str) : drop_cr s = [] -> drop_cr (s ++ t) = drop_cr t.
Proof.
  induction s as [|c s IH]; intros H; [reflexivity|].
  cbn [app drop_cr] in *. destruct (Ascii.eqb c CR); [now apply IH | discriminate].
Qed.

(** A newline after a line takes part in no accepted pattern. *)
Lemma hex_line_newline (l t : str) : hex_line (l ++ LF :: t) = hex_line l.
Proof.
  unfold hex_line. destruct (drop_cr l) as [|c0 r] eqn:E.
  - rewrite drop_cr_nil_app by exact E. cbn [drop_cr].
    change (Ascii.eqb LF CR) with false. cbv iota.
    destruct t as [|c1 [|c2 [|c3 [|c4 t]]]]; reflexivity.
  - rewrite drop_cr_app by (rewrite E; discriminate). rewrite E.
    destruct r as [|c1 [|c2 [|c3 [|c4 r]]]]; cbn [app];
      try reflexivity;
      destruct t as [|d1 [|d2 [|d3 [|d4 t]]]]; try reflexivity;
      change (isxdigit LF) with false; change (isblank LF) with false;
      rewrite ?andb_false_r; reflexivity.
Qed.

(** X14. In the mode of one packet on several lines, the first line of the
    file decides: the string that the whole-file reader builds from the
    empty string is classified as the first line of the file is. *)
Theorem read_hex_str_first_line_decides
    (fs : str -> option (list str)) (fname l : str) (ls : list str)
    (w : world) (st : state) :
  fs fname = Some (l :: ls) ->
  preprocess_hex_str (snd (fst (read_hex_str fs fname [] w))) st
  = preprocess_hex_str l st.
Proof.
  intros H. unfold read_hex_str. rewrite H, fold_joined.
  cbn [fst snd app]. unfold joined. cbn [flat_map].
  rewrite <- app_assoc. cbn [app]. apply preprocess_hex_str_newline.
Qed.

Lemma read_hex_str_first_line_decides_witness :
  let fs := fun _ : str => Some [lit "packet"; lit "0a 0b 0c"] in
  preprocess_hex_str (snd (fst (read_hex_str fs (lit "in.txt") [] world0))) init
  = preprocess_hex_str (lit "packet") init.
Proof.
  intros fs.
  apply (read_hex_str_first_line_decides fs (lit "in.txt") (lit "packet")
           [lit "0a 0b 0c"] world0 init).
  reflexivity.
Defined.

Lemma gen_hexdump_newline (l : str) (st : state) :
  hex_line l = true -> small (l ++ [LF]) ->
  gen_hexdump (l ++ [LF]) st = gen_hexdump l st.
Proof.
  intros Hl Hs. destruct (small_app _ _ Hs) as [Hs' _].
  rewrite (gen_hexdump_accepted (l ++ [LF]))
    by (try assumption; now rewrite hex_line_newline).
  rewrite (gen_hexdump_accepted l) by assumption.
  rewrite xdigits_app. change (xdigits [LF]) with (@nil ascii).
  now rewrite app_nil_r.
Qed.

Lemma each_line_joined (l : str) (ls : list str) (st : state) :
  Forall whole_rows_line (l :: ls) ->
  small (joined (l :: ls)) ->
  each_line (l :: ls) st = gen_hexdump (joined (l :: ls)) st.
Proof.
  revert l st. induction ls as [|l2 ls IH]; intros l st H Hs;
    inversion H as [|? ? [Hl Hm] H']; subst.
  - unfold joined in *. cbn [flat_map] in *. rewrite app_nil_r in *.
    rewrite gen_hexdump_newline by assumption.
    destruct l as [|c l]; [discriminate Hl|]. cbn [each_line].
    now destruct (gen_hexdump (c :: l) st).
  - inversion H' as [|? ? [Hl2 _] _]; subst.
    change (joined (l :: l2 :: ls)) with ((l ++ [LF]) ++ joined (l2 :: ls))
      in *.
    destruct (small_app _ _ Hs) as [Hs1 Hs2].
    rewrite (gen_hexdump_at_row_boundary _ _ st (length (xdigits l) / 32)).
    + rewrite gen_hexdump_newline by assumption.
      destruct l as [|c l]; [discriminate Hl|]. cbn [each_line].
      destruct (gen_hexdump (c :: l) st) as [st1|]; [|reflexivity].
      now apply IH.
    + now rewrite hex_line_newline.
    + unfold joined. cbn [flat_map]. rewrite <- app_assoc. cbn [app].
      now rewrite hex_line_newline.
    + exact Hs.
    + rewrite xdigits_app. change (xdigits [LF]) with (@nil ascii).
      rewrite app_nil_r. lia.
Qed.

(** X15. The two modes agree on a file of fewer than 2^31 characters, its
    newlines counted, whose lines are all accepted and all fill whole
    rows: the line-by-line reader leaves the formatter and the output as
    [gen_hexdump] does on the string that the whole-file reader builds of
    the file. *)
Theorem readers_agree_on_whole_rows
    (fs : str -> option (list str)) (fname l : str) (ls : list str)
    (w : world) :
  fs fname = Some (l :: ls) ->
  Forall whole_rows_line (l :: ls) ->
  small (joined (l :: ls)) ->
  read_hex_gen_dump fs fname w
  = match gen_hexdump (snd (fst (read_hex_str fs fname [] w))) (fmt w) with
    | Some st' => Some (true, mkWorld st' (cout w) (cerr w))
    | None => None
    end.
Proof.
  intros H Hall Hs. unfold read_hex_gen_dump, read_hex_str.
  rewrite H, fold_joined. cbn [fst snd app].
  now rewrite each_line_joined.
Qed.

Lemma readers_agree_on_whole_rows_witness :
  let fs := fun _ : str =>
              Some [lit "00 112233445566778899AABBCCDDEEFF";
                    lit "ff eeddccbbaa99887766554433221100"] in
  read_hex_gen_dump fs (lit "in.txt") world0
  = match gen_hexdump (snd (fst (read_hex_str fs (lit "in.txt") [] world0)))
            (fmt world0) with
    | Some st' => Some (true, mkWorld st' (cout world0) (cerr world0))
    | None => None
    end.
Proof.
  intros fs.
  apply (readers_agree_on_whole_rows fs (lit "in.txt")
           (lit "00 112233445566778899AABBCCDDEEFF")
           [lit "ff eeddccbbaa99887766554433221100"] world0);
    [reflexivity | repeat constructor | vm_compute; reflexivity].
Defined.

(** ** [trim] *)

Lemma find_first_not_of_repeat (c : ascii) (n : nat) :
  find_first_not_of c (repeat c n) = None.
Proof.
  induction n as [|n IH]; [reflexivity|]. cbn [repeat find_first_not_of].
  now rewrite Ascii.eqb_refl, IH.
Qed.

Lemma find_first_not_of_skip (c x : ascii) (n : nat) (r : str) :
  x <> c -> find_first_not_of c (repeat c n ++ x :: r) = Some n.
Proof.
  intros Hx. induction n as [|n IH]; cbn [repeat app find_first_not_of].
  - destruct (Ascii.eqb_spec x c); [contradiction | reflexivity].
  - now rewrite Ascii.eqb_refl, IH.
Qed.

Lemma find_last_not_of_repeat (c : ascii) (n : nat) :
  find_last_not_of c (repeat c n) = None.
Proof.
  induction n as [|n IH]; [reflexivity|]. cbn [repeat find_last_not_of].
  now rewrite IH, Ascii.eqb_refl.
Qed.

Lemma find_last_not_of_skip (c : ascii) (s : str) (n : nat) :
  find_last_not_of c (s ++ repeat c n) = find_last_not_of c s.
Proof.
  induction s as [|x s IH]; cbn [app find_last_not_of].
  - apply find_last_not_of_repeat.
  - now rewrite IH.
Qed.

Lemma find_last_not_of_snoc (c y : ascii) (s : str) :
  y <> c -> find_last_not_of c (s ++ [y]) = Some (length s).
Proof.
  intros Hy. induction s as [|x s IH]; cbn [app find_last_not_of length].
  - destruct (Ascii.eqb_spec y c); [contradiction | reflexivity].
  - now rewrite IH.
Qed.

Lemma trim_blank (n : nat) : Z.of_nat n < npos -> trim (repeat SP n) = None.
Proof.
  intros Hn. unfold trim.
  rewrite find_first_not_of_repeat, find_last_not_of_repeat.
  unfold substr, pos_of. rewrite repeat_length.
  now replace (Z.of_nat n <? npos) with true by (symmetry; apply Z.ltb_lt; lia).
Qed.

Lemma find_last_not_of_between (a b : nat) (t : str) :
  last t SP <> SP -> t <> [] ->
  find_last_not_of SP (repeat SP a ++ t ++ repeat SP b)
  = Some (a + length t - 1)%nat.
Proof.
  intros Hl Hne. rewrite app_assoc, find_last_not_of_skip.
  rewrite (app_removelast_last SP Hne), app_assoc.
  rewrite find_last_not_of_snoc by exact Hl.
  rewrite !length_app, repeat_length. cbn [length]. f_equal. lia.
Qed.

Lemma trim_between (a b : nat) (t : str) :
  hd SP t <> SP -> last t SP <> SP ->
  Z.of_nat (a + length t + b) < npos ->
  trim (repeat SP a ++ t ++ repeat SP b) = Some t.
Proof.
  intros Hh Hl Hn.
  assert (Hne : t <> []) by (intros ->; now apply Hh).
  unfold trim. rewrite find_last_not_of_between by assumption.
  destruct t as [|x r]; [contradiction|]. cbn [hd] in Hh.
  cbn [app]. rewrite find_first_not_of_skip by exact Hh.
  unfold substr, pos_of, size_t. unfold npos in Hn.
  rewrite !length_app, repeat_length. cbn [length] in *.
  rewrite length_app, repeat_length.
  destruct (Z.ltb_spec (Z.of_nat (a + S (length r + b))) (Z.of_nat a)); [lia|].
  replace ((Z.of_nat (a + S (length r) - 1) - Z.of_nat a + 1) mod 2 ^ 64)
    with (Z.of_nat (S (length r))) by lia.
  rewrite !Nat2Z.id. f_equal.
  rewrite skipn_app, repeat_length, Nat.sub_diag, skipn_all2
    by (rewrite repeat_length; lia).
  cbn [app skipn].
  change (x :: r ++ repeat SP b) with ((x :: r) ++ repeat SP b).
  rewrite firstn_app. cbn [length]. rewrite Nat.sub_diag.
  change (S (length r)) with (length (x :: r)). rewrite firstn_all.
  cbn [firstn]. now rewrite app_nil_r.
Qed.

Lemma last_app_text (l t : str) (d : ascii) :
  t <> [] -> last (l ++ t) d = last t d.
Proof.
  intros Hne. induction l as [|x l IH]; [reflexivity|].
  cbn [app]. destruct (l ++ t) eqn:E.
  - apply app_eq_nil in E as [_ E]. contradiction.
  - rewrite <- IH. reflexivity.
Qed.

(** Every string is spaces only, or spaces around a text that neither
    starts nor ends with a space. *)
Lemma spaces_or_text (s : str) :
  (exists n, s = repeat SP n)
  \/ (exists a t b, s = repeat SP a ++ t ++ repeat SP b
                    /\ hd SP t <> SP /\ last t SP <> SP).
Proof.
  induction s as [|x s IH]; [left; now exists 0%nat|].
  destruct (Ascii.eqb_spec x SP) as [->|Hx].
  - destruct IH as [(n & ->) | (a & t & b & -> & Hh & Hl)].
    + left. now exists (S n).
    + right. now exists (S a), t, b.
  - right. destruct IH as [(n & ->) | (a & t & b & -> & Hh & Hl)].
    + exists 0%nat, [x], n. now repeat split.
    + exists 0%nat, (x :: repeat SP a ++ t), b. split; [|split].
      * cbn [repeat app]. now rewrite <- app_assoc.
      * exact Hx.
      * assert (Hne : t <> []) by (intros ->; now apply Hh).
        change (x :: repeat SP a ++ t) with ((x :: repeat SP a) ++ t).
        now rewrite last_app_text.
Qed.

(** X16. [trim] on a string of spaces only, the empty string among them,
    throws: both searches return [npos], and [substr] is called with a
    position beyond the end. *)
Theorem trim_spaces_throws (n : nat) :
  Z.of_nat n < npos -> trim (repeat SP n) = None.
Proof.
  intros Hn. unfold trim.
  rewrite find_first_not_of_repeat, find_last_not_of_repeat.
  unfold substr, pos_of. rewrite repeat_length.
  now replace (Z.of_nat n <? npos) with true by (symmetry; apply Z.ltb_lt; lia).
Qed.

Lemma trim_spaces_throws_witness :
  trim [] = None /\ trim (lit "   ") = None.
Proof.
  split.
  - apply (trim_spaces_throws 0). reflexivity.
  - apply (trim_spaces_throws 3). reflexivity.
Defined.

(** X17. [trim] removes the spaces before and after a text that neither
    starts nor ends with a space, and nothing else: the spaces inside the
    text stay, and so do tabs and newlines at its ends. *)
Theorem trim_strips_spaces (a b : nat) (t : str) :
  hd SP t <> SP -> last t SP <> SP ->
  Z.of_nat (a + length t + b) < npos ->
  trim (repeat SP a ++ t ++ repeat SP b) = Some t.
Proof.
  intros Hh Hl Hn.
  assert (Hne : t <> []) by (intros ->; now apply Hh).
  unfold trim. rewrite find_last_not_of_between by assumption.
  destruct t as [|x r]; [contradiction|]. cbn [hd] in Hh.
  cbn [app]. rewrite find_first_not_of_skip by exact Hh.
  unfold substr, pos_of, size_t. unfold npos in Hn.
  rewrite !length_app, repeat_length. cbn [length] in *.
  rewrite length_app, repeat_length.
  destruct (Z.ltb_spec (Z.of_nat (a + S (length r + b))) (Z.of_nat a)); [lia|].
  replace ((Z.of_nat (a + S (length r) - 1) - Z.of_nat a + 1) mod 2 ^ 64)
    with (Z.of_nat (S (length r))) by lia.
  rewrite !Nat2Z.id. f_equal.
  rewrite skipn_app, repeat_length, Nat.sub_diag, skipn_all2
    by (rewrite repeat_length; lia).
  cbn [app skipn].
  change (x :: r ++ repeat SP b) with ((x :: r) ++ repeat SP b).
  rewrite firstn_app. cbn [length]. rewrite Nat.sub_diag.
  change (S (length r)) with (length (x :: r)). rewrite firstn_all.
  cbn [firstn]. now rewrite app_nil_r.
Qed.

Lemma trim_strips_spaces_witness :
  trim (repeat SP 2 ++ lit "0a 0b" ++ repeat SP 3) = Some (lit "0a 0b").
Proof.
  apply (trim_strips_spaces 2 3 (lit "0a 0b")); [discriminate | discriminate|].
  reflexivity.
Defined.

(** X18. What [trim] returns has no space at either end, and [trim] leaves it
    as it is. *)
Theorem trim_idempotent (s t : str) :
  Z.of_nat (length s) < npos ->
  trim s = Some t ->
  hd SP t <> SP /\ last t SP <> SP /\ trim t = Some t.
Proof.
  intros Hn H.
  destruct (spaces_or_text s) as [(n & ->) | (a & u & b & -> & Hh & Hl)].
  - rewrite repeat_length in Hn. rewrite trim_blank in H by exact Hn.
    discriminate.
  - rewrite !length_app, !repeat_length in Hn.
    rewrite trim_between in H by (try assumption; lia).
    injection H as <-. split; [exact Hh|]. split; [exact Hl|].
    pose proof (trim_between 0 0 u Hh Hl) as Hu.
    cbn [repeat app] in Hu. rewrite app_nil_r in Hu. apply Hu. lia.
Qed.

Lemma trim_idempotent_witness :
  hd SP (lit "0a 0b") <> SP /\ last (lit "0a 0b") SP <> SP
  /\ trim (lit "0a 0b") = Some (lit "0a 0b").
Proof.
  apply (trim_idempotent (lit " 0a 0b  ") (lit "0a 0b")); reflexivity.
Defined.

(** ** [main] *)

Lemma known_option_cases (c : ascii) :
  known_option c = true ->
  c = "s"%char \/ c = "i"%char \/ c = "o"%char \/ c = "n"%char.
Proof.
  unfold known_option. intros H.
  destruct (Ascii.eqb_spec c "s"); [now left|].
  destruct (Ascii.eqb_spec c "i"); [now right; left|].
  destruct (Ascii.eqb_spec c "o"); [now right; right; left|].
  destruct (Ascii.eqb_spec c "n"); [now right; right; right|].
  discriminate.
Qed.

(** Whether one of the options moves [main] to the mode of one packet. *)
Lemma parse_options_known (rs : list (ascii * str)) (v : vars) :
  forallb known_option (map fst rs) = true ->
  parse_options rs v
  = Some (mkVars (last_optarg "s" rs (hex_str v))
            (last_optarg "i" rs (in_file v))
            (last_optarg "o" rs (out_file v))
            (mult_pkts v
             && negb (existsb (fun c => Ascii.eqb c "s" || Ascii.eqb c "n")
                        (map fst rs)))).
Proof.
  revert v. induction rs as [|[c a] rs IH]; intros v H.
  - cbn. rewrite andb_true_r. now destruct v.
  - cbn [map fst forallb] in H. apply andb_true_iff in H as [Hc H].
    cbn [parse_options last_optarg map fst existsb].
    destruct (known_option_cases c Hc) as [-> | [-> | [-> | ->]]];
      cbn; rewrite (IH _ H); cbn; f_equal; f_equal;
      now rewrite ?andb_false_r, ?andb_true_r.
Qed.

Lemma on_option_unknown (c : ascii) (a : str) (v : vars) :
  known_option c = false -> on_option c a v = None.
Proof.
  unfold known_option, on_option. intros Hc.
  apply orb_false_iff in Hc as [Hc Hn]. apply orb_false_iff in Hc as [Hc Ho].
  apply orb_false_iff in Hc as [Hs Hi]. now rewrite Hs, Hi, Ho, Hn.
Qed.

Lemma parse_options_unknown
    (pre post : list (ascii * str)) (c : ascii) (a : str) (v : vars) :
  forallb known_option (map fst pre) = true ->
  known_option c = false ->
  parse_options (pre ++ (c, a) :: post) v = None.
Proof.
  revert v. induction pre as [|[c0 a0] pre IH]; intros v H Hc.
  - cbn [app parse_options]. now rewrite on_option_unknown.
  - cbn [map fst forallb] in H. apply andb_true_iff in H as [Hc0 H].
    cbn [app parse_options].
    destruct (known_option_cases c0 Hc0) as [-> | [-> | [-> | ->]]];
      cbn; now apply IH.
Qed.

Lemma parse_options_vars0 (rs : list (ascii * str)) :
  forallb known_option (map fst rs) = true ->
  parse_options rs vars0
  = Some (mkVars (last_optarg "s" rs []) (last_optarg "i" rs [])
            (last_optarg "o" rs [])
            (negb (existsb (fun c => Ascii.eqb c "s" || Ascii.eqb c "n")
                     (map fst rs)))).
Proof. intros H. now rewrite parse_options_known. Qed.

(** X19. The option loop: of an option given several times the last one
    counts; [-s] and [-n] both end the mode of several packets, and no
    option brings it back. *)
Theorem parse_options_last_wins (rs : list (ascii * str)) :
  forallb known_option (map fst rs) = true ->
  parse_options rs vars0
  = Some (mkVars (last_optarg "s" rs []) (last_optarg "i" rs [])
            (last_optarg "o" rs [])
            (negb (existsb (fun c => Ascii.eqb c "s" || Ascii.eqb c "n")
                     (map fst rs)))).
Proof. intros H. now rewrite parse_options_known. Qed.

Lemma parse_options_last_wins_witness :
  parse_options [("o"%char, lit "a.txt"); ("n"%char, []); ("i"%char, lit "in");
                 ("o"%char, lit "b.txt")] vars0
  = Some (mkVars [] (lit "in") (lit "b.txt") false).
Proof.
  apply (parse_options_last_wins
           [("o"%char, lit "a.txt"); ("n"%char, []); ("i"%char, lit "in");
            ("o"%char, lit "b.txt")]).
  reflexivity.
Defined.

(** The lines of a small file are small. *)
Lemma small_joined (lines : list str) :
  small (joined lines) -> Forall small lines.
Proof.
  induction lines as [|l lines IH]; intros H; [constructor|].
  change (joined (l :: lines)) with ((l ++ [LF]) ++ joined lines) in H.
  apply small_app in H as [H1 H2]. apply small_app in H1 as [H1 _].
  constructor; [exact H1 | now apply IH].
Qed.

Section MainProperties.

Variable fs : str -> option (list str).
Variable creatable : str -> bool.
Variable assert_diag : str.
Variable getopt_diag : str.

(** X20. An option that [getopt] does not know ends the run: the usage line
    goes to standard output, after the diagnostic that [getopt] has
    written to standard error, and the process aborts, whatever options
    follow; no file is created or read. *)
Theorem main_unknown_option
    (argv0 : str) (pre post : list (ascii * str)) (c : ascii) (a : str) :
  forallb known_option (map fst pre) = true ->
  known_option c = false ->
  main fs creatable assert_diag getopt_diag argv0 (pre ++ (c, a) :: post)
  = Some (Abort, mkWorld init (usage argv0) getopt_diag).
Proof.
  intros H Hc. unfold main. now rewrite parse_options_unknown.
Qed.

(** X21. Without an output path, none given or an empty one, the assertion
    fails and the process aborts before anything is created, read or
    printed to standard output. *)
Theorem main_without_output (argv0 : str) (rs : list (ascii * str)) :
  forallb known_option (map fst rs) = true ->
  last_optarg "o" rs [] = [] ->
  main fs creatable assert_diag getopt_diag argv0 rs
  = Some (Abort, mkWorld init [] assert_diag).
Proof.
  intros H Ho. unfold main. rewrite parse_options_vars0 by exact H.
  unfold run_main. cbn [out_file]. now rewrite Ho.
Qed.

(** X22. When the output file cannot be created, [main] says so on standard
    output and returns 1, without reading the input. *)
Theorem main_output_not_created (argv0 : str) (rs : list (ascii * str)) :
  forallb known_option (map fst rs) = true ->
  last_optarg "o" rs [] <> [] ->
  creatable (last_optarg "o" rs []) = false ->
  main fs creatable assert_diag getopt_diag argv0 rs
  = Some (Return 1,
          mkWorld init
            (lit "Error: failed to create file " ++ last_optarg "o" rs []
             ++ [LF]) []).
Proof.
  intros H Ho Hc. unfold main. rewrite parse_options_vars0 by exact H.
  unfold run_main. cbn [out_file]. rewrite Hc.
  destruct (last_optarg "o" rs []); [contradiction | reflexivity].
Qed.

(** X23. In the mode of several packets, an input file that cannot be opened
    is reported on standard output, and [main] returns 0 all the same,
    leaving an output file with nothing in it. *)
Theorem main_input_not_opened (argv0 : str) (rs : list (ascii * str)) :
  forallb known_option (map fst rs) = true ->
  existsb (fun c => Ascii.eqb c "s" || Ascii.eqb c "n") (map fst rs) = false ->
  last_optarg "o" rs [] <> [] ->
  creatable (last_optarg "o" rs []) = true ->
  last_optarg "i" rs [] <> [] ->
  fs (last_optarg "i" rs []) = None ->
  main fs creatable assert_diag getopt_diag argv0 rs
  = Some (Return 0,
          mkWorld init
            (lit "Unable to open file" ++ last_optarg "i" rs [] ++ [LF]) []).
Proof.
  intros H Hm Ho Hc Hi Hf. unfold main.
  rewrite parse_options_vars0 by exact H.
  unfold run_main, read_hex_gen_dump.
  cbn [out_file in_file mult_pkts hex_str]. rewrite Hm, Hc, Hf.
  destruct (last_optarg "o" rs []); [contradiction|].
  destruct (last_optarg "i" rs []); [contradiction | reflexivity].
Qed.

(** X24. In the mode of one packet with an input file, what is formatted is
    the string of [-s], if there is one, followed by the lines of the
    file; a file that cannot be opened is reported and counts as empty;
    and, the two together having fewer than 2^31 characters, [main]
    returns 0. *)
Theorem main_single_packet (argv0 : str) (rs : list (ascii * str)) :
  forallb known_option (map fst rs) = true ->
  existsb (fun c => Ascii.eqb c "s" || Ascii.eqb c "n") (map fst rs) = true ->
  last_optarg "o" rs [] <> [] ->
  creatable (last_optarg "o" rs []) = true ->
  last_optarg "i" rs [] <> [] ->
  small (last_optarg "s" rs []
         ++ match fs (last_optarg "i" rs []) with
            | Some lines => joined lines
            | None => []
            end) ->
  let text :=
    last_optarg "s" rs []
    ++ match fs (last_optarg "i" rs []) with
       | Some lines => joined lines
       | None => []
       end in
  let said :=
    match fs (last_optarg "i" rs []) with
    | Some _ => []
    | None => lit "Unable to open file" ++ last_optarg "i" rs [] ++ [LF]
    end in
  exists st,
    gen_hexdump text init = Some st /\
    main fs creatable assert_diag getopt_diag argv0 rs
    = Some (Return 0, mkWorld st said []).
Proof.
  intros H Hm Ho Hc Hi Hsmall text said. unfold main.
  rewrite parse_options_vars0 by exact H.
  unfold run_main, read_hex_str.
  cbn [out_file in_file mult_pkts hex_str]. rewrite Hm, Hc.
  destruct (gen_hexdump_total text init Hsmall) as (st & Hs).
  exists st. split; [exact Hs|]. subst text said.
  destruct (last_optarg "o" rs []); [contradiction|].
  destruct (last_optarg "i" rs []) as [|c i] eqn:Ei; [contradiction|].
  cbn [is_empty negb andb].
  destruct (fs (c :: i)) as [lines|].
  - rewrite fold_joined. cbn [fmt cout cerr world0]. now rewrite Hs.
  - rewrite app_nil_r in Hs. cbn [fmt cout cerr world0 report_open_failure].
    now rewrite Hs.
Qed.

(** X25. When the string of [-s] and the input file have fewer than 2^31
    characters together, [main] ends, and its status tells of the options
    and of the output file only: it aborts on an unknown option or a
    missing output path, returns 1 when the output file cannot be created,
    and returns 0 in every other case, whatever becomes of the input. *)
Theorem main_status (argv0 : str) (rs : list (ascii * str)) :
  small (last_optarg "s" rs []
         ++ match fs (last_optarg "i" rs []) with
            | Some lines => joined lines
            | None => []
            end) ->
  exists e w,
    main fs creatable assert_diag getopt_diag argv0 rs = Some (e, w) /\
    e = (if negb (forallb known_option (map fst rs)) then Abort
         else if is_empty (last_optarg "o" rs []) then Abort
         else if creatable (last_optarg "o" rs []) then Return 0
         else Return 1).
Proof.
  intros Hsmall.
  unfold main. destruct (forallb known_option (map fst rs)) eqn:H.
  - rewrite parse_options_vars0 by exact H. unfold run_main.
    cbn [out_file in_file mult_pkts hex_str negb].
    destruct (is_empty (last_optarg "o" rs [])); [now eexists _, _|].
    destruct (creatable (last_optarg "o" rs [])); cbn [negb];
      [|now eexists _, _].
    destruct (small_app _ _ Hsmall) as [Hs Hf].
    destruct (negb (negb (existsb _ (map fst rs)))
              && negb (is_empty (last_optarg "i" rs []))).
    + unfold read_hex_str.
      destruct (fs (last_optarg "i" rs [])) as [lines|].
      * rewrite fold_joined. cbn [fmt world0].
        destruct (gen_hexdump_total _ init Hsmall) as (st & ->).
        now eexists _, _.
      * cbn [fmt report_open_failure world0].
        destruct (gen_hexdump_total _ init Hs) as (st & ->).
        now eexists _, _.
    + destruct (negb (is_empty (last_optarg "i" rs []))) eqn:Ei.
      * unfold read_hex_gen_dump.
        destruct (fs (last_optarg "i" rs [])) as [lines|]; [|now eexists _, _].
        rewrite each_line_nonempty.
        destruct (gen_hexdump_seq_total
                    (filter (fun l => negb (is_empty l)) lines) (fmt world0))
          as (st & ->); [|now eexists _, _].
        apply Forall_forall. intros l Hl. apply filter_In in Hl as [Hl _].
        revert l Hl. apply Forall_forall. now apply small_joined.
      * destruct (gen_hexdump_total (last_optarg "s" rs []) init Hs)
          as (st & ->).
        now eexists _, _.
  - cbn [negb].
    assert (Hn : parse_options rs vars0 = None).
    { clear -H. generalize vars0. induction rs as [|[c a] rs IH]; intros v;
        [discriminate|].
      cbn [map fst forallb] in H. cbn [parse_options].
      destruct (known_option c) eqn:Hc.
      - destruct (known_option_cases c Hc) as [-> | [-> | [-> | ->]]];
          cbn; now apply IH.
      - now rewrite on_option_unknown. }
    rewrite Hn. now eexists _, _.
Qed.

End MainProperties.

Lemma main_unknown_option_witness :
  main (fun _ => None) (fun _ => true) (lit "assertion failed")
    (lit "invalid option") (lit "gen_hexdump")
    ([("o"%char, lit "out.txt")] ++ ("?"%char, []) :: [("n"%char, [])])
  = Some (Abort,
          mkWorld init (usage (lit "gen_hexdump")) (lit "invalid option")).
Proof.
  apply (main_unknown_option (fun _ => None) (fun _ => true)
           (lit "assertion failed") (lit "invalid option") (lit "gen_hexdump")
           [("o"%char, lit "out.txt")] [("n"%char, [])] "?"%char []);
    reflexivity.
Defined.

Lemma main_without_output_witness :
  main (fun _ => None) (fun _ => true) (lit "assertion failed")
    (lit "invalid option") (lit "gen_hexdump") [("s"%char, lit "0a 0b")]
  = Some (Abort, mkWorld init [] (lit "assertion failed")).
Proof.
  apply (main_without_output (fun _ => None) (fun _ => true)
           (lit "assertion failed") (lit "invalid option") (lit "gen_hexdump")
           [("s"%char, lit "0a 0b")]); reflexivity.
Defined.

Lemma main_output_not_created_witness :
  main (fun _ => None) (fun _ => false) (lit "assertion failed")
    (lit "invalid option") (lit "gen_hexdump")
    [("s"%char, lit "0a 0b"); ("o"%char, lit "out.txt")]
  = Some (Return 1,
          mkWorld init
            (lit "Error: failed to create file " ++ lit "out.txt" ++ [LF]) []).
Proof.
  apply (main_output_not_created (fun _ => None) (fun _ => false)
           (lit "assertion failed") (lit "invalid option") (lit "gen_hexdump")
           [("s"%char, lit "0a 0b"); ("o"%char, lit "out.txt")]);
    [reflexivity | discriminate | reflexivity].
Defined.

Lemma main_input_not_opened_witness :
  main (fun _ => None) (fun _ => true) (lit "assertion failed")
    (lit "invalid option") (lit "gen_hexdump")
    [("i"%char, lit "in.txt"); ("o"%char, lit "out.txt")]
  = Some (Return 0,
          mkWorld init (lit "Unable to open file" ++ lit "in.txt" ++ [LF]) []).
Proof.
  apply (main_input_not_opened (fun _ => None) (fun _ => true)
           (lit "assertion failed") (lit "invalid option") (lit "gen_hexdump")
           [("i"%char, lit "in.txt"); ("o"%char, lit "out.txt")]);
    try reflexivity; discriminate.
Defined.

Lemma main_single_packet_witness :
  exists st,
    gen_hexdump (lit "0a 0b" ++ joined [lit "0c"]) init = Some st /\
    main (fun _ => Some [lit "0c"]) (fun _ => true) (lit "assertion failed")
      (lit "invalid option") (lit "gen_hexdump")
      [("s"%char, lit "0a 0b"); ("i"%char, lit "in.txt");
       ("o"%char, lit "out.txt")]
    = Some (Return 0, mkWorld st [] []).
Proof.
  apply (main_single_packet (fun _ => Some [lit "0c"]) (fun _ => true)
           (lit "assertion failed") (lit "invalid option") (lit "gen_hexdump")
           [("s"%char, lit "0a 0b"); ("i"%char, lit "in.txt");
            ("o"%char, lit "out.txt")]);
    try (vm_compute; reflexivity); discriminate.
Defined.

Lemma main_status_witness :
  exists e w,
    main (fun _ => Some [lit "0c 0d"]) (fun _ => true) (lit "assertion failed")
      (lit "invalid option") (lit "gen_hexdump")
      [("i"%char, lit "in.txt"); ("o"%char, lit "out.txt")] = Some (e, w) /\
    e = Return 0.
Proof.
  apply (main_status (fun _ => Some [lit "0c 0d"]) (fun _ => true)
           (lit "assertion failed") (lit "invalid option") (lit "gen_hexdump")
           [("i"%char, lit "in.txt"); ("o"%char, lit "out.txt")]).
  vm_compute. reflexivity.
Defined.
